(** * Period-based compounding projection engine ([calculateGrowth])

    A shallow embedding of [calculateGrowth] from [calculator.ts] (the
    version with inflation and ISK tax) and the proofs of the properties
    the specification states about it.

    Numbers.  A JavaScript [number] is modelled as a real ([R]); [>=],
    [<], [>], [<=] are the order of the reals, and the loop counter [month]
    is a natural number injected with [INR] wherever the source mixes it
    with other numbers.  Amounts of money are computed with the exact
    field operations.  The ages and the number of months that the engine
    computes are computed with the rounded operations of a [Rounding] (see
    below): their values decide which iterations run and which regime a
    month falls in.  Infinities and NaN are outside the model. *)

From Stdlib Require Import Reals Lra Lia List ZArith String Bool Arith.
From Stdlib Require Import Permutation Sorted.
From Equations Require Import Equations.
Import ListNotations.

Local Open Scope R_scope.

(** ** Data model *)

(** [interface Period] *)
Module Period.
Record t : Type := mk {
  startAge : R;
  endAge : R;
  monthlyContribution : R;
  monthlySpending : R;
  annualReturn : option R   (* annualReturn?: number *)
}.
End Period.

(** [iskTax?: { enabled: boolean; governmentBorrowingRate: number }] *)
Module IskTax.
Record t : Type := mk {
  enabled : bool;
  governmentBorrowingRate : R
}.
End IskTax.

(** [interface CalculationInputs]; an optional field is an [option]. *)
Module CalculationInputs.
Record t : Type := mk {
  initialAmount : R;
  periods : list Period.t;
  annualReturn : R;
  endAge : option R;          (* endAge?: number, defaults to 100 *)
  inflationRate : option R;   (* inflationRate?: number, default 0 *)
  iskTax : option IskTax.t
}.
End CalculationInputs.

(** [interface YearlyBalance] *)
Module YearlyBalance.
Record t : Type := mk {
  age : R;
  balance : R;
  realBalance : R;
  contributions : R;
  growth : R;
  withdrawalRate : R;
  taxPaid : R
}.
End YearlyBalance.

(** What a call produces: the returned array, or the thrown [Error]. *)
Inductive Completion (A : Type) : Type :=
| Return (value : A)
| Throw (message : string).
Arguments Return {A} value.
Arguments Throw {A} message.

(** ** Rounding

    Every arithmetic operation of the source returns the IEEE 754 double
    nearest to the exact result.  On an amount of money this stays within
    the tolerance the specification grants, and the operation is modelled
    by the exact one.  An age or a number of months, however, is compared
    with other numbers, and there the rounding decides the outcome:
    whether one more month runs, which regime a month falls in, whether a
    snapshot's age equals the start age of a period.  These operations are
    followed by [fl] in the model, the rounding of their exact result, of
    which only what follows is assumed.  Rounding to the nearest double
    has both properties (its significand has 53 bits). *)
Class Rounding : Type := {
  fl : R -> R;
  fl_monotone : forall x y, x <= y -> fl x <= fl y;
  fl_integer : forall z : Z, (Z.abs z <= 2 ^ 53)%Z -> fl (IZR z) = IZR z
}.

(** Arithmetic without rounding. *)
Definition unrounded : Rounding :=
  {| fl := fun x => x;
     fl_monotone := fun x y H => H;
     fl_integer := fun z _ => eq_refl |}.

(** ** The JavaScript operations the engine uses *)

(** Comparison operators, as booleans. *)
Definition Rgeb (x y : R) : bool := if Rge_dec x y then true else false.
Definition Rltb (x y : R) : bool := if Rlt_dec x y then true else false.
Definition Rgtb (x y : R) : bool := if Rgt_dec x y then true else false.
Definition Rleb (x y : R) : bool := if Rle_dec x y then true else false.

(** [Math.pow(x, y)].  On a positive base it is the real power; the
    engine calls it on [1 + inflation] only, and no theorem below uses its
    value on another base. *)
Definition Math_pow (x y : R) : R := Rpower x y.

(** [a ?? b] *)
Definition nullish (a : option R) (b : R) : R :=
  match a with Some v => v | None => b end.

(** [Array.prototype.sort(comparefn)]: ECMAScript specifies a stable sort,
    [a] being placed after [b] exactly when [comparefn(a, b) > 0].  For a
    comparator that is a total preorder (as [a.startAge - b.startAge] is
    over the reals) the result is determined; it is computed here by
    insertion from the right, which keeps equal keys in their input
    order. *)
Section ArraySort.
Context {A : Type} (comparefn : A -> A -> R).

Fixpoint sort_insert (a : A) (l : list A) : list A :=
  match l with
  | [] => [a]
  | b :: rest =>
      if Rgtb (comparefn a b) 0 then b :: sort_insert a rest
      else a :: b :: rest
  end.

Definition Array_sort (l : list A) : list A :=
  fold_right sort_insert [] l.
End ArraySort.

(** ** [calculateGrowth] *)

(** [const getPeriodForAge = (age) => { for (const period of sortedPeriods)
    { if (age >= period.startAge && age < period.endAge) return period }
    return null }] *)
Fixpoint getPeriodForAge (sortedPeriods : list Period.t) (age : R)
  : option Period.t :=
  match sortedPeriods with
  | [] => None
  | period :: rest =>
      if Rgeb age (Period.startAge period) && Rltb age (Period.endAge period)
      then Some period
      else getPeriodForAge rest age
  end.

(** The comparator passed to [sort]: [(a, b) => a.startAge - b.startAge]. *)
Definition byStartAge (a b : Period.t) : R :=
  Period.startAge a - Period.startAge b.

(** The [let] variables the loop updates, and the array it pushes to. *)
Record LoopState : Type := mkLoopState {
  balance : R;
  inflationMultiplier : R;
  cumulativeTaxPaid : R;
  totalContributions : R;
  yearlyBalances : list YearlyBalance.t
}.

Section Engine.
Context {rnd : Rounding}.
Variable inputs : CalculationInputs.t.

Let initialAmount := CalculationInputs.initialAmount inputs.
Let annualReturn := CalculationInputs.annualReturn inputs.
Let iskTax := CalculationInputs.iskTax inputs.

(* endAge = 100, inflationRate = 0 *)
Definition endAge : R := nullish (CalculationInputs.endAge inputs) 100.
Definition inflationRate : R :=
  nullish (CalculationInputs.inflationRate inputs) 0.

(* [...periods].sort((a, b) => a.startAge - b.startAge) *)
Definition sortedPeriods : list Period.t :=
  Array_sort byStartAge (CalculationInputs.periods inputs).

(* sortedPeriods[0].startAge; only read when the list is not empty *)
Definition startAge : R :=
  match sortedPeriods with
  | first :: _ => Period.startAge first
  | [] => 0
  end.

(* const totalYears = endAge - startAge; const months = totalYears * 12 *)
Definition totalYears : R := fl (endAge - startAge).
Definition months : R := fl (totalYears * 12).
Definition inflation : R := inflationRate / 100.
Definition monthlyInflationFactor : R := Math_pow (1 + inflation) (1 / 12).

(* iskTax?.enabled *)
Definition iskEnabled : bool :=
  match iskTax with
  | Some tax => IskTax.enabled tax
  | None => false
  end.

Definition iskRate : R :=
  match iskTax with
  | Some tax => IskTax.governmentBorrowingRate tax
  | None => 0
  end.

(* balance > 0 ? (annualSpending / balance) * 100 : 0 *)
Definition withdrawalRateOf (annualSpending bal : R) : R :=
  if Rgtb bal 0 then (annualSpending / bal) * 100 else 0.

(** State before the loop, the entry for the start age already pushed. *)
Definition initialState : LoopState :=
  let balance := initialAmount in
  let totalContributions := initialAmount in
  let initialPeriod := getPeriodForAge sortedPeriods startAge in
  let initialAnnualSpending :=
    match initialPeriod with
    | Some p => Period.monthlySpending p * 12
    | None => 0
    end in
  let initialWithdrawalRate := withdrawalRateOf initialAnnualSpending balance in
  {| balance := balance;
     inflationMultiplier := 1;
     cumulativeTaxPaid := 0;
     totalContributions := totalContributions;
     yearlyBalances :=
       [ YearlyBalance.mk startAge balance balance totalContributions 0
           initialWithdrawalRate 0 ] |}.

(** [const currentAge = startAge + (month - 1) / 12]: the quotient is
    rounded, then the sum. *)
Definition currentAge (month : nat) : R :=
  fl (startAge + fl ((INR month - 1) / 12)).

(** The first half of the loop body: growth, inflation, cash flows. *)
Definition monthFlows (month : nat) (st : LoopState) : LoopState :=
  let activePeriod := getPeriodForAge sortedPeriods (currentAge month) in
  let effectiveReturn :=
    nullish (match activePeriod with
             | Some p => Period.annualReturn p
             | None => None
             end) annualReturn in
  let monthlyRate := effectiveReturn / 100 / 12 in
  let balance1 := balance st * (1 + monthlyRate) in
  let inflationMultiplier1 := inflationMultiplier st * monthlyInflationFactor in
  match activePeriod with
  | Some p =>
      {| balance := balance1 + Period.monthlyContribution p
                    - Period.monthlySpending p * inflationMultiplier1;
         inflationMultiplier := inflationMultiplier1;
         cumulativeTaxPaid := cumulativeTaxPaid st;
         totalContributions :=
           totalContributions st + Period.monthlyContribution p;
         yearlyBalances := yearlyBalances st |}
  | None =>
      {| balance := balance1;
         inflationMultiplier := inflationMultiplier1;
         cumulativeTaxPaid := cumulativeTaxPaid st;
         totalContributions := totalContributions st;
         yearlyBalances := yearlyBalances st |}
  end.

(** [if (iskTax?.enabled) { ... }] at a yearly boundary. *)
Definition applyIskTax (st : LoopState) : LoopState :=
  if iskEnabled then
    let annualTax := balance st * (iskRate / 100) * 0.30 in
    {| balance := balance st - annualTax;
       inflationMultiplier := inflationMultiplier st;
       cumulativeTaxPaid := cumulativeTaxPaid st + annualTax;
       totalContributions := totalContributions st;
       yearlyBalances := yearlyBalances st |}
  else st.

(** The rest of the [if (month % 12 === 0)] block: the pushed entry.
    [month] is a multiple of 12 there, so that [month / 12] is a whole
    number, which the division returns as it is; the sum [startAge +
    month / 12] is rounded. *)
Definition pushYear (month : nat) (st : LoopState) : LoopState :=
  let age := fl (startAge + INR month / 12) in
  let yearsElapsed := INR month / 12 in
  let growth := balance st - totalContributions st in
  let currentPeriod := getPeriodForAge sortedPeriods age in
  let annualSpending :=
    match currentPeriod with
    | Some p => Period.monthlySpending p * 12 * inflationMultiplier st
    | None => 0
    end in
  let withdrawalRate := withdrawalRateOf annualSpending (balance st) in
  let realBalance := balance st / Math_pow (1 + inflation) yearsElapsed in
  {| balance := balance st;
     inflationMultiplier := inflationMultiplier st;
     cumulativeTaxPaid := cumulativeTaxPaid st;
     totalContributions := totalContributions st;
     yearlyBalances :=
       yearlyBalances st ++
       [ YearlyBalance.mk age (balance st) realBalance
           (totalContributions st) growth withdrawalRate
           (cumulativeTaxPaid st) ] |}.

(** One iteration of [for (let month = 1; month <= months; month++)]. *)
Definition loopBody (month : nat) (st : LoopState) : LoopState :=
  let st1 := monthFlows month st in
  if (month mod 12 =? 0)%nat then pushYear month (applyIskTax st1) else st1.

(** The loop, from the current value of [month]. *)
Equations? forLoop (month : nat) (st : LoopState) : LoopState
  by wf (Z.to_nat (up months - Z.of_nat month)) lt :=
  forLoop month st with Rle_dec (INR month) months => {
    | left _ := forLoop (S month) (loopBody month st);
    | right _ := st }.
Proof.
  destruct (archimed months) as [Hup _].
  assert (IZR (Z.of_nat month) < IZR (up months)) as Hlt
    by (rewrite <- INR_IZR_INZ; lra).
  apply lt_IZR in Hlt. lia.
Qed.

Definition calculateGrowth : Completion (list YearlyBalance.t) :=
  match sortedPeriods with
  | [] => Throw "At least one period is required"
  | _ :: _ => Return (yearlyBalances (forLoop 1%nat initialState))
  end.
End Engine.

(** ** The loop in closed form *)

(** Number of iterations of [for (month = 1; month <= months; month++)]:
    the largest natural number below or equal to [months] (none when
    [months < 1]). *)
Definition monthCount {rnd : Rounding} (inputs : CalculationInputs.t) : nat :=
  Z.to_nat (Int_part (months inputs)).

(** State after the first [n] iterations. *)
Definition stateAfter {rnd : Rounding} (inputs : CalculationInputs.t)
    (n : nat) : LoopState :=
  fold_left (fun st month => loopBody inputs month st) (seq 1 n)
            (initialState inputs).

(** Balance on which the tax of month [month] is charged: the balance
    after that month's growth and cash flows. *)
Definition preTaxBalance {rnd : Rounding} (inputs : CalculationInputs.t)
    (month : nat) : R :=
  balance (monthFlows inputs month (stateAfter inputs (month - 1))).

(** [age] lies in the half-open interval of the period. *)
Definition contains (p : Period.t) (age : R) : Prop :=
  Period.startAge p <= age < Period.endAge p.

(** Ascending order of start ages. *)
Definition startLe (a b : Period.t) : Prop :=
  Period.startAge a <= Period.startAge b.

(** ** The specification's monthly-step definition (section 4.1)

    Written from the specification's words, independently of the loop
    above: regime resolution by least start age, a state of four running
    numbers advanced one month at a time, and one snapshot per completed
    year read off that state.  The specification's arithmetic is
    floating-point as well: the span in months and the ages are rounded
    as in the engine. *)
Module Spec.

(** Start age: the minimum [startAge] among regimes. *)
Fixpoint minStartAge (regimes : list Period.t) : R :=
  match regimes with
  | [] => 0
  | [r] => Period.startAge r
  | r :: rest => Rmin (Period.startAge r) (minStartAge rest)
  end.

Definition containsb (r : Period.t) (age : R) : bool :=
  if Rle_dec (Period.startAge r) age
  then (if Rlt_dec age (Period.endAge r) then true else false)
  else false.

(** Active regime: among the regimes whose interval contains the age,
    the one with the least start age; between regimes of equal start
    age, the one supplied first. *)
Fixpoint activeRegime (regimes : list Period.t) (age : R)
  : option Period.t :=
  match regimes with
  | [] => None
  | r :: rest =>
      if containsb r age then
        match activeRegime rest age with
        | Some r' =>
            if Rlt_dec (Period.startAge r') (Period.startAge r)
            then Some r' else Some r
        | None => Some r
        end
      else activeRegime rest age
  end.

Record State : Type := mkState {
  bal : R;          (* nominal balance *)
  infl : R;         (* running inflation multiplier *)
  contrib : R;      (* cumulative contributions *)
  tax : R           (* cumulative tax *)
}.

Section Project.
Context {rnd : Rounding}.
Variable inputs : CalculationInputs.t.

Let regimes := CalculationInputs.periods inputs.
Let globalReturn := CalculationInputs.annualReturn inputs.
Let horizonAge :=
  match CalculationInputs.endAge inputs with Some a => a | None => 100 end.
Let inflationPct :=
  match CalculationInputs.inflationRate inputs with
  | Some i => i | None => 0 end.

Definition start : R := minStartAge regimes.
Definition totalMonths : R := fl (fl (horizonAge - start) * 12).

Definition taxEnabled : bool :=
  match CalculationInputs.iskTax inputs with
  | Some t => IskTax.enabled t | None => false end.
Definition taxRateBasis : R :=
  match CalculationInputs.iskTax inputs with
  | Some t => IskTax.governmentBorrowingRate t | None => 0 end.

(** Steps 1 to 4 of the per-month step. *)
Definition flows (month : nat) (s : State) : State :=
  let age := fl (start + fl ((INR month - 1) / 12)) in
  let regime := activeRegime regimes age in
  let rate :=
    match regime with
    | Some r =>
        match Period.annualReturn r with
        | Some override => override
        | None => globalReturn
        end
    | None => globalReturn
    end in
  let grown := bal s * (1 + rate / 100 / 12) in
  let multiplier := infl s * Math_pow (1 + inflationPct / 100) (1 / 12) in
  match regime with
  | Some r =>
      mkState (grown + Period.monthlyContribution r
               - Period.monthlySpending r * multiplier)
              multiplier
              (contrib s + Period.monthlyContribution r)
              (tax s)
  | None => mkState grown multiplier (contrib s) (tax s)
  end.

(** Step 5, the tax charged when a month completes a year. *)
Definition yearEndTax (s : State) : State :=
  if taxEnabled then
    let t := bal s * (taxRateBasis / 100) * 0.30 in
    mkState (bal s - t) (infl s) (contrib s) (tax s + t)
  else s.

Definition step (month : nat) (s : State) : State :=
  let s' := flows month s in
  if (month mod 12 =? 0)%nat then yearEndTax s' else s'.

Definition initial : State :=
  mkState (CalculationInputs.initialAmount inputs) 1
          (CalculationInputs.initialAmount inputs) 0.

(** State at the instant completing month [m]. *)
Fixpoint stateAt (m : nat) : State :=
  match m with
  | O => initial
  | S k => step (S k) (stateAt k)
  end.

Definition withdrawalRate (age : R) (s : State) : R :=
  match activeRegime regimes age with
  | Some r =>
      if Rlt_dec 0 (bal s)
      then Period.monthlySpending r * 12 * infl s / bal s * 100
      else 0
  | None => 0
  end.

Definition firstSnapshot : YearlyBalance.t :=
  YearlyBalance.mk start (bal initial) (bal initial) (contrib initial) 0
    (withdrawalRate start initial) 0.

(** Snapshot emitted when month [m] completes a year. *)
Definition snapshot (m : nat) : YearlyBalance.t :=
  let s := stateAt m in
  let age := fl (start + INR m / 12) in
  YearlyBalance.mk age (bal s)
    (bal s / Math_pow (1 + inflationPct / 100) (INR m / 12))
    (contrib s) (bal s - contrib s) (withdrawalRate age s) (tax s).

(** Month indices [1..totalMonths] that complete a year. *)
Definition yearEnds : list nat :=
  filter (fun m => (m mod 12 =? 0)%nat)
         (seq 1 (Z.to_nat (Int_part totalMonths))).

Definition project : list YearlyBalance.t :=
  firstSnapshot :: map snapshot yearEnds.
End Project.
End Spec.


(** The running numbers of a loop state, as a state of the specification. *)
Definition abstraction (st : LoopState) : Spec.State :=
  Spec.mkState (balance st) (inflationMultiplier st)
               (totalContributions st) (cumulativeTaxPaid st).

(** ** Scenarios

    Inputs on which the statements below are exercised. *)

(** One regime [[30, horizon)] without cash flows or return override. *)
Definition idleRegime (horizon : R) : Period.t :=
  Period.mk 30 horizon 0 0 None.

Definition idleInputs (initial ret horizon : R) (infl : option R)
    (tax : option IskTax.t) : CalculationInputs.t :=
  CalculationInputs.mk initial [idleRegime horizon] ret (Some horizon) infl tax.

(** 10000 at 12% for one year (specification, section 8). *)
Definition compoundScenario : CalculationInputs.t :=
  idleInputs 10000 12 31 None None.

(** Two years at 0% with the tax enabled at a borrowing rate of 2.5
    (specification, section 8, for [initial = 1000000]). *)
Definition taxScenario (initial : R) : CalculationInputs.t :=
  idleInputs initial 0 32 None (Some (IskTax.mk true 2.5)).

(** One year at 0% with 2% inflation. *)
Definition inflationScenario (initial : R) : CalculationInputs.t :=
  idleInputs initial 0 31 (Some 2) None.

(** A horizon age equal to the start age. *)
Definition emptySpanScenario : CalculationInputs.t :=
  idleInputs 5000 7 30 None None.

(** A regime of zero length next to a regular one. *)
Definition zeroLengthRegime : Period.t := Period.mk 40 40 500 100 None.

Definition zeroLengthScenario : CalculationInputs.t :=
  CalculationInputs.mk 10000 [zeroLengthRegime; idleRegime 50] 7 (Some 50)
    None None.

(** Two overlapping regimes of one start age, and a third starting later. *)
Definition saver : Period.t := Period.mk 30 40 1000 0 None.
Definition spender : Period.t := Period.mk 30 50 0 2000 (Some 3).
Definition lateStarter : Period.t := Period.mk 35 60 300 0 None.

Definition overlapScenario : CalculationInputs.t :=
  CalculationInputs.mk 10000 [lateStarter; saver; spender] 7 (Some 60)
    None None.

(** ** Snapshots, year by year *)

(** The age of the snapshot of year [k]: the start age itself, then the
    rounded sums [start + k]. *)
Definition ageOfYear {rnd : Rounding} (start : R) (k : nat) : R :=
  match k with
  | O => start
  | S _ => fl (start + INR k)
  end.

(** The snapshot of year [k]: the first one, then those of the months
    [12 * k]. *)
Definition snapshotOfYear {rnd : Rounding} (inputs : CalculationInputs.t)
    (k : nat) : YearlyBalance.t :=
  match k with
  | O => Spec.firstSnapshot inputs
  | S _ => Spec.snapshot inputs (12 * k)
  end.

(** ** Contributions, month by month *)

(** The amount contributed in a month: the [monthlyContribution] of the
    regime active at the age computed for the start of that month. *)
Definition scheduledContribution {rnd : Rounding} (periods : list Period.t)
    (month : nat) : R :=
  match Spec.activeRegime periods
          (fl (Spec.minStartAge periods + fl ((INR month - 1) / 12))) with
  | Some r => Period.monthlyContribution r
  | None => 0
  end.

(** Sum of the scheduled contributions of the months [1..m]. *)
Fixpoint contributionsThrough {rnd : Rounding} (periods : list Period.t)
    (m : nat) : R :=
  match m with
  | O => 0
  | S k => contributionsThrough periods k + scheduledContribution periods (S k)
  end.


(** ** The legacy adapter *)

(** [interface LegacyCalculationInputs] *)
Module LegacyCalculationInputs.
Record t : Type := mk {
  initialAmount : R;
  monthlyContribution : R;
  monthlySpending : R;
  annualReturn : R;
  startAge : R;
  retirementAge : R;
  endAge : option R           (* endAge?: number, defaults to 100 *)
}.
End LegacyCalculationInputs.

(** The two periods [calculateGrowthLegacy] builds. *)
Definition legacyPeriods (legacy : LegacyCalculationInputs.t)
  : list Period.t :=
  let endAge := nullish (LegacyCalculationInputs.endAge legacy) 100 in
  [ {| Period.startAge := LegacyCalculationInputs.startAge legacy;
       Period.endAge := LegacyCalculationInputs.retirementAge legacy;
       Period.monthlyContribution :=
         LegacyCalculationInputs.monthlyContribution legacy;
       Period.monthlySpending := 0;
       Period.annualReturn := None |};
    {| Period.startAge := LegacyCalculationInputs.retirementAge legacy;
       Period.endAge := endAge;
       Period.monthlyContribution := 0;
       Period.monthlySpending :=
         LegacyCalculationInputs.monthlySpending legacy;
       Period.annualReturn := None |} ].

(** [calculateGrowthLegacy]: the call
    [calculateGrowth({ initialAmount, periods, annualReturn, endAge })]. *)
Definition legacyInputs (legacy : LegacyCalculationInputs.t)
  : CalculationInputs.t :=
  let endAge := nullish (LegacyCalculationInputs.endAge legacy) 100 in
  {| CalculationInputs.initialAmount :=
       LegacyCalculationInputs.initialAmount legacy;
     CalculationInputs.periods := legacyPeriods legacy;
     CalculationInputs.annualReturn :=
       LegacyCalculationInputs.annualReturn legacy;
     CalculationInputs.endAge := Some endAge;
     CalculationInputs.inflationRate := None;
     CalculationInputs.iskTax := None |}.

Definition calculateGrowthLegacy {rnd : Rounding}
    (legacy : LegacyCalculationInputs.t)
  : Completion (list YearlyBalance.t) :=
  calculateGrowth (legacyInputs legacy).

(** ** The form around the engine ([App]) *)

Module App.

(** The initial value of the [periods] state. *)
Definition initialPeriods : list Period.t :=
  [ Period.mk 35 65 10000 0 None; Period.mk 65 100 0 3000 None ].

(** [{ ...period, endAge }] *)
Definition withEndAge (period : Period.t) (endAge : R) : Period.t :=
  {| Period.startAge := Period.startAge period;
     Period.endAge := endAge;
     Period.monthlyContribution := Period.monthlyContribution period;
     Period.monthlySpending := Period.monthlySpending period;
     Period.annualReturn := Period.annualReturn period |}.

(** [array.map((element, index) => ...)] *)
Definition mapWithIndex {A B : Type} (f : A -> nat -> B) (l : list A)
  : list B :=
  map (fun entry => f (snd entry) (fst entry))
      (combine (seq 0 (List.length l)) l).

(** [periods.map((period, index) => index === periods.length - 1
      ? { ...period, endAge: 100 }
      : { ...period, endAge: periods[index + 1].startAge })].
    [periods[index + 1]] exists in the second branch; the default of
    [nth] is never read. *)
Definition periodsWithEndAges (periods : list Period.t) : list Period.t :=
  mapWithIndex
    (fun period index =>
       if (index =? List.length periods - 1)%nat
       then withEndAge period 100
       else withEndAge period
              (Period.startAge (nth (index + 1) periods period)))
    periods.

(** The part of the component state the projection reads. *)
Record State : Type := mkState {
  initialAmount : R;
  annualReturn : R;
  inflationRate : R;
  iskEnabled : bool;
  govBorrowingRate : R;
  periods : list Period.t
}.

(** The object passed to [calculateGrowth]. *)
Definition inputs (st : State) : CalculationInputs.t :=
  {| CalculationInputs.initialAmount := initialAmount st;
     CalculationInputs.periods := periodsWithEndAges (periods st);
     CalculationInputs.annualReturn := annualReturn st;
     CalculationInputs.endAge := Some 100;
     CalculationInputs.inflationRate := Some (inflationRate st);
     CalculationInputs.iskTax :=
       if iskEnabled st
       then Some (IskTax.mk true (govBorrowingRate st))
       else None |}.

(** [const results = calculateGrowth({ ... })] *)
Definition results {rnd : Rounding} (st : State)
  : Completion (list YearlyBalance.t) :=
  calculateGrowth (inputs st).

(** [results.find(r => r.age === period.startAge)] *)
Definition startResult (snapshots : list YearlyBalance.t) (period : Period.t)
  : option YearlyBalance.t :=
  find (fun r => if Req_dec_T (YearlyBalance.age r) (Period.startAge period)
                 then true else false)
       snapshots.

(** [addPeriod]: the list passed to [setPeriods]; reading [startAge] of
    [periods[periods.length - 1]] throws a [TypeError] on an empty list.
    The new start age is a number handed to the engine, not one the
    engine computes: like an amount, it is the exact sum here. *)
Definition addPeriod (periods : list Period.t)
  : Completion (list Period.t) :=
  match nth_error periods (List.length periods - 1) with
  | Some lastPeriod =>
      Return (periods ++ [ Period.mk (Period.startAge lastPeriod + 10) 100
                                     0 0 None ])
  | None => Throw "TypeError"
  end.

(** [removePeriod(index)]: the next value of [periods] (unchanged when the
    guard [periods.length > 1] fails). *)
Definition removePeriod (periods : list Period.t) (index : nat)
  : list Period.t :=
  if (1 <? List.length periods)%nat
  then map snd (filter (fun entry => negb (fst entry =? index)%nat)
                       (combine (seq 0 (List.length periods)) periods))
  else periods.

(** [periodsWithEndAges], read along the list: every period ends where
    the next one starts, the last one at 100. *)
Fixpoint stitch (periods : list Period.t) : list Period.t :=
  match periods with
  | [] => []
  | period :: rest =>
      withEndAge period
        match rest with
        | [] => 100
        | next :: _ => Period.startAge next
        end
      :: stitch rest
  end.

End App.

(** Start ages strictly ascending along the list. *)
Definition startLt (a b : Period.t) : Prop :=
  Period.startAge a < Period.startAge b.

(** The period lists the add and remove buttons can produce from the
    initial one. *)
Inductive reachableByButtons : list Period.t -> Prop :=
| reachable_initial : reachableByButtons App.initialPeriods
| reachable_add periods periods' :
    reachableByButtons periods ->
    App.addPeriod periods = Return periods' ->
    reachableByButtons periods'
| reachable_remove periods index :
    reachableByButtons periods ->
    reachableByButtons (App.removePeriod periods index).

(** ** The engine before inflation, return overrides and tax

    [calculator.ts] as it stood before those were added: the same loop on
    a state of two running numbers. *)
Module Plain.

(** [interface YearlyBalance] *)
Module YearlyBalance.
Record t : Type := mk {
  age : R;
  balance : R;
  contributions : R;
  growth : R;
  withdrawalRate : R
}.
End YearlyBalance.

(** [interface Period] *)
Module Period.
Record t : Type := mk {
  startAge : R;
  endAge : R;
  monthlyContribution : R;
  monthlySpending : R
}.
End Period.

(** [interface CalculationInputs] *)
Module CalculationInputs.
Record t : Type := mk {
  initialAmount : R;
  periods : list Period.t;
  annualReturn : R;
  endAge : option R           (* endAge?: number, defaults to 100 *)
}.
End CalculationInputs.

(** [(a, b) => a.startAge - b.startAge] *)
Definition byStartAge (a b : Period.t) : R :=
  Period.startAge a - Period.startAge b.

Fixpoint getPeriodForAge (sortedPeriods : list Period.t) (age : R)
  : option Period.t :=
  match sortedPeriods with
  | [] => None
  | period :: rest =>
      if Rgeb age (Period.startAge period) && Rltb age (Period.endAge period)
      then Some period
      else getPeriodForAge rest age
  end.

Record LoopState : Type := mkLoopState {
  balance : R;
  totalContributions : R;
  yearlyBalances : list YearlyBalance.t
}.

Section Engine.
Context {rnd : Rounding}.
Variable inputs : CalculationInputs.t.

Let initialAmount := CalculationInputs.initialAmount inputs.
Let annualReturn := CalculationInputs.annualReturn inputs.

Definition endAge : R := nullish (CalculationInputs.endAge inputs) 100.
Definition monthlyRate : R := annualReturn / 100 / 12.

Definition sortedPeriods : list Period.t :=
  Array_sort byStartAge (CalculationInputs.periods inputs).

Definition startAge : R :=
  match sortedPeriods with
  | first :: _ => Period.startAge first
  | [] => 0
  end.

Definition totalYears : R := fl (endAge - startAge).
Definition months : R := fl (totalYears * 12).

Definition initialState : LoopState :=
  let balance := initialAmount in
  let totalContributions := initialAmount in
  let initialPeriod := getPeriodForAge sortedPeriods startAge in
  let initialAnnualSpending :=
    match initialPeriod with
    | Some p => Period.monthlySpending p * 12
    | None => 0
    end in
  let initialWithdrawalRate := withdrawalRateOf initialAnnualSpending balance in
  {| balance := balance;
     totalContributions := totalContributions;
     yearlyBalances :=
       [ YearlyBalance.mk startAge balance totalContributions 0
           initialWithdrawalRate ] |}.

Definition loopBody (month : nat) (st : LoopState) : LoopState :=
  let currentAge := fl (startAge + fl ((INR month - 1) / 12)) in
  let balance1 := balance st * (1 + monthlyRate) in
  let activePeriod := getPeriodForAge sortedPeriods currentAge in
  let st1 :=
    match activePeriod with
    | Some p =>
        {| balance := balance1 + Period.monthlyContribution p
                      - Period.monthlySpending p;
           totalContributions :=
             totalContributions st + Period.monthlyContribution p;
           yearlyBalances := yearlyBalances st |}
    | None =>
        {| balance := balance1;
           totalContributions := totalContributions st;
           yearlyBalances := yearlyBalances st |}
    end in
  if (month mod 12 =? 0)%nat then
    let age := fl (startAge + INR month / 12) in
    let growth := balance st1 - totalContributions st1 in
    let currentPeriod := getPeriodForAge sortedPeriods age in
    let annualSpending :=
      match currentPeriod with
      | Some p => Period.monthlySpending p * 12
      | None => 0
      end in
    let withdrawalRate := withdrawalRateOf annualSpending (balance st1) in
    {| balance := balance st1;
       totalContributions := totalContributions st1;
       yearlyBalances :=
         yearlyBalances st1 ++
         [ YearlyBalance.mk age (balance st1) (totalContributions st1)
             growth withdrawalRate ] |}
  else st1.

Equations? forLoop (month : nat) (st : LoopState) : LoopState
  by wf (Z.to_nat (up months - Z.of_nat month)) lt :=
  forLoop month st with Rle_dec (INR month) months => {
    | left _ := forLoop (S month) (loopBody month st);
    | right _ := st }.
Proof.
  destruct (archimed months) as [Hup _].
  assert (IZR (Z.of_nat month) < IZR (up months)) as Hlt
    by (rewrite <- INR_IZR_INZ; lra).
  apply lt_IZR in Hlt. lia.
Qed.

Definition calculateGrowth : Completion (list YearlyBalance.t) :=
  match sortedPeriods with
  | [] => Throw "At least one period is required"
  | _ :: _ => Return (yearlyBalances (forLoop 1%nat initialState))
  end.
End Engine.

End Plain.

(** A period, inputs and a snapshot of the plain engine, seen from the
    current one: no return override, no inflation rate, no tax policy;
    and a snapshot of the current engine with the two later fields
    dropped. *)
Definition withoutOverride (p : Plain.Period.t) : Period.t :=
  {| Period.startAge := Plain.Period.startAge p;
     Period.endAge := Plain.Period.endAge p;
     Period.monthlyContribution := Plain.Period.monthlyContribution p;
     Period.monthlySpending := Plain.Period.monthlySpending p;
     Period.annualReturn := None |}.

Definition withDefaults (i : Plain.CalculationInputs.t)
  : CalculationInputs.t :=
  {| CalculationInputs.initialAmount := Plain.CalculationInputs.initialAmount i;
     CalculationInputs.periods :=
       map withoutOverride (Plain.CalculationInputs.periods i);
     CalculationInputs.annualReturn := Plain.CalculationInputs.annualReturn i;
     CalculationInputs.endAge := Plain.CalculationInputs.endAge i;
     CalculationInputs.inflationRate := None;
     CalculationInputs.iskTax := None |}.

Definition plainFields (s : YearlyBalance.t) : Plain.YearlyBalance.t :=
  {| Plain.YearlyBalance.age := YearlyBalance.age s;
     Plain.YearlyBalance.balance := YearlyBalance.balance s;
     Plain.YearlyBalance.contributions := YearlyBalance.contributions s;
     Plain.YearlyBalance.growth := YearlyBalance.growth s;
     Plain.YearlyBalance.withdrawalRate := YearlyBalance.withdrawalRate s |}.

(** The states of the two loops agree. *)
Definition sameState (plain : Plain.LoopState) (st : LoopState) : Prop :=
  Plain.balance plain = balance st
  /\ Plain.totalContributions plain = totalContributions st
  /\ inflationMultiplier st = 1
  /\ Plain.yearlyBalances plain = map plainFields (yearlyBalances st).

(** ** More scenarios *)

(** Legacy inputs: one year of saving 500 a month at 12%. *)
Definition legacySaver : LegacyCalculationInputs.t :=
  LegacyCalculationInputs.mk 10000 500 0 12 30 31 (Some 31).

(** Legacy inputs retiring at the start age: ten years of spending. *)
Definition legacyRetired : LegacyCalculationInputs.t :=
  LegacyCalculationInputs.mk 100000 0 5000 3 65 65 (Some 75).

(** The state the form starts in. *)
Definition defaultState : App.State :=
  App.mkState 900000 7 2 false 2.5 App.initialPeriods.

(** The periods of the form after one press of the add button. *)
Definition threePeriods : list Period.t :=
  App.initialPeriods ++ [Period.mk (65 + 10) 100 0 0 None].

(** * Properties

    A statement about the engine holds for every rounding: it has the
    parameter [rnd : Rounding], which the functions of the engine take
    implicitly.  Statements on concrete inputs, which show that the
    hypotheses of a theorem can be met or that a property fails, are made
    for [unrounded]. *)

(** ** Comparisons *)

Lemma Rgeb_true x y : Rgeb x y = true <-> y <= x.
Proof. unfold Rgeb. destruct (Rge_dec x y); split; intros; try easy; lra. Qed.

Lemma Rltb_true x y : Rltb x y = true <-> x < y.
Proof. unfold Rltb. destruct (Rlt_dec x y); split; intros; try easy; lra. Qed.

Lemma Rgtb_true x y : Rgtb x y = true <-> y < x.
Proof. unfold Rgtb. destruct (Rgt_dec x y); split; intros; try easy; lra. Qed.

Lemma Rgtb_false x y : Rgtb x y = false <-> x <= y.
Proof. unfold Rgtb. destruct (Rgt_dec x y); split; intros; try easy; lra. Qed.

(** The test of [getPeriodForAge] decides [contains]. *)
Lemma interval_test p age :
  Rgeb age (Period.startAge p) && Rltb age (Period.endAge p) = true
  <-> contains p age.
Proof.
  unfold contains. rewrite andb_true_iff, Rgeb_true, Rltb_true. tauto.
Qed.

Lemma interval_test_false p age :
  Rgeb age (Period.startAge p) && Rltb age (Period.endAge p) = false
  <-> ~ contains p age.
Proof.
  rewrite <- interval_test.
  destruct (Rgeb age (Period.startAge p) && Rltb age (Period.endAge p));
    split; intros H; easy.
Qed.

Lemma containsb_test p age :
  Spec.containsb p age
  = Rgeb age (Period.startAge p) && Rltb age (Period.endAge p).
Proof.
  unfold Spec.containsb, Rgeb, Rltb.
  destruct (Rle_dec (Period.startAge p) age), (Rge_dec age (Period.startAge p)),
    (Rlt_dec age (Period.endAge p)); simpl; try reflexivity; lra.
Qed.

(** ** Rounding *)

Lemma fl_0 {rnd : Rounding} : fl 0 = 0.
Proof. apply (fl_integer 0). discriminate. Qed.

(** A whole number below [2 ^ 53] is not changed. *)
Lemma fl_whole {rnd : Rounding} z x :
  x = IZR z -> (Z.abs z <= 2 ^ 53)%Z -> fl x = x.
Proof. intros ->. apply fl_integer. Qed.

(** Rounding keeps the sign. *)
Lemma fl_nonpos {rnd : Rounding} x : x <= 0 -> fl x <= 0.
Proof. intros H. rewrite <- fl_0. now apply fl_monotone. Qed.

(** Without a span there are no months. *)
Lemma months_nonpos {rnd : Rounding} inputs :
  endAge inputs - startAge inputs <= 0 -> months inputs <= 0.
Proof.
  intros H. unfold months, totalYears.
  apply fl_nonpos. apply fl_nonpos in H. lra.
Qed.

(** The age at the start of a month does not decrease with the month. *)
Lemma currentAge_monotone {rnd : Rounding} inputs month month' :
  (month <= month')%nat ->
  currentAge inputs month <= currentAge inputs month'.
Proof.
  intros H. apply le_INR in H. unfold currentAge.
  apply fl_monotone, Rplus_le_compat_l, fl_monotone. lra.
Qed.

(** ** The sorted copy *)

Lemma sort_insert_perm (a : Period.t) l :
  Permutation (a :: l) (sort_insert byStartAge a l).
Proof.
  induction l as [|b l IH]; simpl; [reflexivity|].
  destruct (Rgtb (byStartAge a b) 0); [|reflexivity].
  rewrite perm_swap. now apply perm_skip.
Qed.

Lemma Array_sort_perm l : Permutation l (Array_sort byStartAge l).
Proof.
  induction l as [|a l IH]; simpl; [constructor|].
  rewrite <- sort_insert_perm. now apply perm_skip.
Qed.

Lemma sort_insert_sorted a l :
  StronglySorted startLe l -> StronglySorted startLe (sort_insert byStartAge a l).
Proof.
  induction 1 as [|b l Hs IH Hb]; simpl.
  - repeat constructor.
  - destruct (Rgtb (byStartAge a b) 0) eqn:E.
    + apply Rgtb_true in E. unfold byStartAge in E.
      constructor; [exact IH|].
      rewrite <- sort_insert_perm. constructor; [unfold startLe; lra | exact Hb].
    + apply Rgtb_false in E. unfold byStartAge in E.
      constructor; [now constructor|].
      constructor; [unfold startLe; lra|].
      eapply Forall_impl; [|exact Hb]. unfold startLe. intros; lra.
Qed.

Lemma Array_sort_sorted l : StronglySorted startLe (Array_sort byStartAge l).
Proof.
  induction l; simpl; [constructor | now apply sort_insert_sorted].
Qed.

Lemma Array_sort_nil_iff l : Array_sort byStartAge l = [] <-> l = [].
Proof.
  split; intros H; [|now subst].
  pose proof (Array_sort_perm l) as P. rewrite H in P.
  now apply Permutation_sym, Permutation_nil in P.
Qed.

(** Every match of the scan satisfies the interval test. *)
Lemma getPeriodForAge_Some l age p :
  getPeriodForAge l age = Some p -> In p l /\ contains p age.
Proof.
  induction l as [|b l IH]; simpl; [discriminate|].
  destruct (Rgeb age (Period.startAge b) && Rltb age (Period.endAge b)) eqn:E.
  - intros [= <-]. apply interval_test in E. auto.
  - intros H. destruct (IH H). auto.
Qed.

Lemma getPeriodForAge_None l age :
  getPeriodForAge l age = None <-> Forall (fun q => ~ contains q age) l.
Proof.
  induction l as [|b l IH]; simpl.
  - split; auto.
  - destruct (Rgeb age (Period.startAge b) && Rltb age (Period.endAge b)) eqn:E.
    + apply interval_test in E. split; [discriminate|].
      intros H. inversion H; contradiction.
    + apply interval_test_false in E. rewrite IH. split.
      * now constructor.
      * now inversion 1.
Qed.

(** The scan returns the first match: nothing before it contains the age. *)
Lemma getPeriodForAge_first l age p :
  getPeriodForAge l age = Some p ->
  exists l1 l2, l = l1 ++ p :: l2 /\ contains p age
                /\ Forall (fun q => ~ contains q age) l1.
Proof.
  induction l as [|b l IH]; simpl; [discriminate|].
  destruct (Rgeb age (Period.startAge b) && Rltb age (Period.endAge b)) eqn:E.
  - intros [= <-]. apply interval_test in E.
    exists [], l. auto.
  - intros H. destruct (IH H) as (l1 & l2 & -> & Hc & Hn).
    apply interval_test_false in E.
    exists (b :: l1), l2. auto.
Qed.

(** Scanning after one insertion, in terms of the scan before it. *)
Lemma getPeriodForAge_insert a l age :
  StronglySorted startLe l ->
  getPeriodForAge (sort_insert byStartAge a l) age =
  if Spec.containsb a age then
    match getPeriodForAge l age with
    | Some b =>
        if Rlt_dec (Period.startAge b) (Period.startAge a)
        then Some b else Some a
    | None => Some a
    end
  else getPeriodForAge l age.
Proof.
  rewrite containsb_test.
  induction 1 as [|b l Hs IH Hb]; simpl.
  - destruct (Rgeb age (Period.startAge a) && Rltb age (Period.endAge a));
      reflexivity.
  - destruct (Rgtb (byStartAge a b) 0) eqn:E; simpl.
    + apply Rgtb_true in E. unfold byStartAge in E.
      destruct (Rgeb age (Period.startAge b) && Rltb age (Period.endAge b)).
      * destruct (Rgeb age (Period.startAge a) && Rltb age (Period.endAge a));
          [|reflexivity].
        destruct (Rlt_dec (Period.startAge b) (Period.startAge a));
          [reflexivity | lra].
      * exact IH.
    + apply Rgtb_false in E. unfold byStartAge in E.
      destruct (Rgeb age (Period.startAge a) && Rltb age (Period.endAge a));
        [|reflexivity].
      destruct (Rgeb age (Period.startAge b) && Rltb age (Period.endAge b)).
      * destruct (Rlt_dec (Period.startAge b) (Period.startAge a));
          [lra | reflexivity].
      * destruct (getPeriodForAge l age) as [c|] eqn:G; [|reflexivity].
        apply getPeriodForAge_Some in G. destruct G as [Hin _].
        rewrite Forall_forall in Hb. specialize (Hb c Hin).
        unfold startLe in Hb.
        destruct (Rlt_dec (Period.startAge c) (Period.startAge a));
          [lra | reflexivity].
Qed.

(** The scan over the sorted copy is the specification's resolution. *)
Lemma getPeriodForAge_sorted l age :
  getPeriodForAge (Array_sort byStartAge l) age = Spec.activeRegime l age.
Proof.
  induction l as [|a l IH]; simpl; [reflexivity|].
  rewrite getPeriodForAge_insert by apply Array_sort_sorted.
  now rewrite IH.
Qed.

(** ** Start age *)

Lemma minStartAge_cons a l :
  l <> [] ->
  Spec.minStartAge (a :: l) = Rmin (Period.startAge a) (Spec.minStartAge l).
Proof. destruct l; [congruence | reflexivity]. Qed.

Lemma minStartAge_le l p : In p l -> Spec.minStartAge l <= Period.startAge p.
Proof.
  induction l as [|a l IH]; [easy|].
  destruct l as [|b l].
  - intros [<-|[]]. simpl. lra.
  - rewrite minStartAge_cons by discriminate.
    intros [<-|H].
    + apply Rmin_l.
    + etransitivity; [apply Rmin_r | now apply IH].
Qed.

Lemma minStartAge_In l :
  l <> [] -> exists p, In p l /\ Spec.minStartAge l = Period.startAge p.
Proof.
  induction l as [|a l IH]; [congruence|]. intros _.
  destruct l as [|b l].
  - exists a. simpl. auto.
  - rewrite minStartAge_cons by discriminate.
    destruct IH as (p & Hin & Hp); [discriminate|].
    destruct (Rle_dec (Period.startAge a) (Spec.minStartAge (b :: l))).
    + exists a. rewrite Rmin_left by assumption. simpl; auto.
    + exists p. rewrite Rmin_right by lra. split; [now right | exact Hp].
Qed.

(** [sortedPeriods[0].startAge] is the minimum start age. *)
Lemma startAge_min inputs : startAge inputs = Spec.start inputs.
Proof.
  unfold startAge, Spec.start, sortedPeriods.
  generalize (CalculationInputs.periods inputs) as l. intros l.
  pose proof (Array_sort_perm l) as P.
  pose proof (Array_sort_sorted l) as S.
  destruct (Array_sort byStartAge l) as [|first rest] eqn:E.
  - apply (proj1 (Array_sort_nil_iff l)) in E. now rewrite E.
  - assert (l <> []) as Hne
        by (intros ->; now apply Permutation_nil in P).
    destruct (minStartAge_In l Hne) as (p & Hin & Hp).
    apply Rle_antisym.
    + rewrite Hp. inversion S as [|? ? _ Hall]; subst.
      apply (Permutation_in _ P) in Hin. destruct Hin as [<-|Hin]; [lra|].
      rewrite Forall_forall in Hall. now apply Hall.
    + apply minStartAge_le.
      apply (Permutation_in _ (Permutation_sym P)). now left.
Qed.

(** ** The loop *)

Lemma forLoop_continue {rnd : Rounding} inputs month st :
  INR month <= months inputs ->
  forLoop inputs month st = forLoop inputs (S month) (loopBody inputs month st).
Proof.
  intros H. rewrite forLoop_equation_1.
  destruct (Rle_dec (INR month) (months inputs)); [reflexivity | contradiction].
Qed.

Lemma forLoop_exit {rnd : Rounding} inputs month st :
  ~ INR month <= months inputs -> forLoop inputs month st = st.
Proof.
  intros H. rewrite forLoop_equation_1.
  destruct (Rle_dec (INR month) (months inputs)); [contradiction | reflexivity].
Qed.

Lemma Int_part_bounds r : IZR (Int_part r) <= r < IZR (Int_part r) + 1.
Proof.
  unfold Int_part. rewrite minus_IZR.
  destruct (archimed r). lra.
Qed.

(** The loop test holds exactly for the months up to [monthCount]. *)
Lemma loop_test_monthCount {rnd : Rounding} inputs month :
  (1 <= month)%nat ->
  INR month <= months inputs <-> (month <= monthCount inputs)%nat.
Proof.
  intros Hpos. unfold monthCount.
  destruct (Int_part_bounds (months inputs)) as [Hlo Hhi].
  rewrite INR_IZR_INZ. split; intros H.
  - assert (IZR (Z.of_nat month) < IZR (Int_part (months inputs) + 1)) as Hlt
      by (rewrite plus_IZR; lra).
    apply lt_IZR in Hlt. lia.
  - assert (Z.of_nat month <= Int_part (months inputs))%Z as Hle by lia.
    apply IZR_le in Hle. lra.
Qed.

Lemma forLoop_fold {rnd : Rounding} inputs k : forall month st,
  (1 <= month)%nat -> (month + k = S (monthCount inputs))%nat ->
  forLoop inputs month st
  = fold_left (fun st month => loopBody inputs month st) (seq month k) st.
Proof.
  induction k as [|k IH]; intros month st Hpos Hk; simpl.
  - apply forLoop_exit. rewrite loop_test_monthCount by assumption. lia.
  - rewrite forLoop_continue
      by (rewrite loop_test_monthCount by assumption; lia).
    apply IH; lia.
Qed.

(** The loop terminates, in the state reached after [monthCount] months. *)
Lemma forLoop_stateAfter {rnd : Rounding} inputs :
  forLoop inputs 1%nat (initialState inputs)
  = stateAfter inputs (monthCount inputs).
Proof. unfold stateAfter. apply forLoop_fold; lia. Qed.

Lemma stateAfter_S {rnd : Rounding} inputs n :
  stateAfter inputs (S n) = loopBody inputs (S n) (stateAfter inputs n).
Proof.
  unfold stateAfter. rewrite seq_S, fold_left_app. reflexivity.
Qed.

Lemma calculateGrowth_Return {rnd : Rounding} inputs :
  CalculationInputs.periods inputs <> [] ->
  calculateGrowth inputs
  = Return (yearlyBalances (stateAfter inputs (monthCount inputs))).
Proof.
  intros Hne. unfold calculateGrowth. rewrite forLoop_stateAfter.
  unfold sortedPeriods.
  destruct (Array_sort byStartAge (CalculationInputs.periods inputs)) eqn:E;
    [|reflexivity].
  apply (proj1 (Array_sort_nil_iff _)) in E. contradiction.
Qed.

Lemma calculateGrowth_Throw {rnd : Rounding} inputs :
  CalculationInputs.periods inputs = [] ->
  calculateGrowth inputs = Throw "At least one period is required".
Proof.
  intros E. unfold calculateGrowth, sortedPeriods. now rewrite E.
Qed.

(** ** From the loop state to the specification's state *)

Lemma inflation_spec inputs :
  inflation inputs
  = match CalculationInputs.inflationRate inputs with
    | Some i => i | None => 0 end / 100.
Proof. reflexivity. Qed.

Lemma monthFlows_spec {rnd : Rounding} inputs month st :
  abstraction (monthFlows inputs month st)
  = Spec.flows inputs month (abstraction st).
Proof.
  unfold monthFlows, currentAge, Spec.flows, monthlyInflationFactor,
    sortedPeriods.
  rewrite getPeriodForAge_sorted, startAge_min, inflation_spec.
  destruct (Spec.activeRegime _ _) as [p|]; simpl; [|reflexivity].
  destruct (Period.annualReturn p); reflexivity.
Qed.

Lemma applyIskTax_spec inputs st :
  abstraction (applyIskTax inputs st) = Spec.yearEndTax inputs (abstraction st).
Proof.
  unfold applyIskTax, Spec.yearEndTax, iskEnabled, Spec.taxEnabled,
    iskRate, Spec.taxRateBasis.
  destruct (CalculationInputs.iskTax inputs) as [t|]; [|reflexivity].
  destruct (IskTax.enabled t); reflexivity.
Qed.

Lemma loopBody_spec {rnd : Rounding} inputs month st :
  abstraction (loopBody inputs month st)
  = Spec.step inputs month (abstraction st).
Proof.
  unfold loopBody, Spec.step.
  destruct (month mod 12 =? 0)%nat.
  - change (abstraction (pushYear inputs month ?s)) with (abstraction s).
    now rewrite applyIskTax_spec, monthFlows_spec.
  - apply monthFlows_spec.
Qed.

Lemma stateAfter_spec {rnd : Rounding} inputs n :
  abstraction (stateAfter inputs n) = Spec.stateAt inputs n.
Proof.
  induction n as [|n IH]; [reflexivity|].
  rewrite stateAfter_S, loopBody_spec, IH. reflexivity.
Qed.

(** The withdrawal rate of the source and of the specification agree. *)
Lemma withdrawalRate_spec inputs age st :
  withdrawalRateOf
    match getPeriodForAge (sortedPeriods inputs) age with
    | Some p => Period.monthlySpending p * 12 * inflationMultiplier st
    | None => 0
    end (balance st)
  = Spec.withdrawalRate inputs age (abstraction st).
Proof.
  unfold withdrawalRateOf, Spec.withdrawalRate, sortedPeriods, Rgtb.
  rewrite getPeriodForAge_sorted. simpl.
  destruct (Spec.activeRegime _ _) as [p|];
    destruct (Rgt_dec (balance st) 0), (Rlt_dec 0 (balance st));
    reflexivity || lra.
Qed.

Lemma initialState_snapshot inputs :
  yearlyBalances (initialState inputs) = [Spec.firstSnapshot inputs].
Proof.
  unfold initialState, Spec.firstSnapshot. simpl. rewrite startAge_min.
  f_equal. f_equal.
  unfold withdrawalRateOf, Spec.withdrawalRate, sortedPeriods, Rgtb.
  rewrite getPeriodForAge_sorted. simpl.
  destruct (Spec.activeRegime _ _) as [p|];
    destruct (Rgt_dec (CalculationInputs.initialAmount inputs) 0),
             (Rlt_dec 0 (CalculationInputs.initialAmount inputs));
    reflexivity || lra.
Qed.

(** Growth, cash flows and tax leave the pushed entries alone. *)
Lemma monthFlows_yearlyBalances {rnd : Rounding} inputs month st :
  yearlyBalances (monthFlows inputs month st) = yearlyBalances st.
Proof.
  unfold monthFlows. destruct (getPeriodForAge _ _); reflexivity.
Qed.

Lemma applyIskTax_yearlyBalances inputs st :
  yearlyBalances (applyIskTax inputs st) = yearlyBalances st.
Proof. unfold applyIskTax. destruct (iskEnabled inputs); reflexivity. Qed.

(** The entry pushed at a yearly boundary is the specification's snapshot. *)
Lemma pushYear_snapshot {rnd : Rounding} inputs n :
  (S n mod 12 =? 0)%nat = true ->
  yearlyBalances (loopBody inputs (S n) (stateAfter inputs n))
  = yearlyBalances (stateAfter inputs n) ++ [Spec.snapshot inputs (S n)].
Proof.
  intros E. unfold Spec.snapshot.
  rewrite <- stateAfter_spec, stateAfter_S.
  unfold loopBody. rewrite E.
  set (st := applyIskTax inputs (monthFlows inputs (S n) (stateAfter inputs n))).
  unfold pushYear. cbn [yearlyBalances].
  rewrite withdrawalRate_spec.
  change (abstraction (mkLoopState ?b ?i ?c ?t ?y))
    with (Spec.mkState b i t c).
  unfold st at 1. rewrite applyIskTax_yearlyBalances, monthFlows_yearlyBalances.
  rewrite startAge_min, inflation_spec. reflexivity.
Qed.

Lemma stateAfter_yearlyBalances {rnd : Rounding} inputs n :
  yearlyBalances (stateAfter inputs n)
  = Spec.firstSnapshot inputs
    :: map (Spec.snapshot inputs)
           (filter (fun m => (m mod 12 =? 0)%nat) (seq 1 n)).
Proof.
  induction n as [|n IH]; [apply initialState_snapshot|].
  rewrite stateAfter_S, seq_S, filter_app, map_app. cbn [filter Nat.add].
  destruct (S n mod 12 =? 0)%nat eqn:E.
  - rewrite pushYear_snapshot, IH by assumption. reflexivity.
  - unfold loopBody. rewrite E.
    rewrite monthFlows_yearlyBalances, IH. cbn [map]. now rewrite app_nil_r.
Qed.

Lemma monthCount_spec {rnd : Rounding} inputs :
  monthCount inputs = Z.to_nat (Int_part (Spec.totalMonths inputs)).
Proof.
  unfold monthCount, months, totalYears, Spec.totalMonths.
  rewrite startAge_min. reflexivity.
Qed.

(** The returned array is the specification's trajectory. *)
Lemma calculateGrowth_project {rnd : Rounding} inputs :
  CalculationInputs.periods inputs <> [] ->
  calculateGrowth inputs = Return (Spec.project inputs).
Proof.
  intros Hne. rewrite calculateGrowth_Return by assumption.
  rewrite stateAfter_yearlyBalances, monthCount_spec. reflexivity.
Qed.

(** ** Regime resolution in terms of the caller's list *)

Lemma containsb_true p age : Spec.containsb p age = true <-> contains p age.
Proof. rewrite containsb_test. apply interval_test. Qed.

Lemma containsb_false p age : Spec.containsb p age = false <-> ~ contains p age.
Proof. rewrite containsb_test. apply interval_test_false. Qed.

Lemma activeRegime_None l age :
  Spec.activeRegime l age = None <-> Forall (fun q => ~ contains q age) l.
Proof.
  rewrite <- getPeriodForAge_sorted, getPeriodForAge_None.
  split; intros H.
  - eapply Permutation_Forall; [symmetry; apply Array_sort_perm | exact H].
  - eapply Permutation_Forall; [apply Array_sort_perm | exact H].
Qed.

(** Where the selected regime stands in the caller's list: every regime
    supplied before it that contains the age starts strictly later, and
    every one supplied after it that contains the age starts no earlier. *)
Lemma activeRegime_position l age p :
  Spec.activeRegime l age = Some p ->
  exists l1 l2,
    l = l1 ++ p :: l2 /\ contains p age
    /\ (forall q, In q l1 -> contains q age ->
                  Period.startAge p < Period.startAge q)
    /\ (forall q, In q l2 -> contains q age ->
                  Period.startAge p <= Period.startAge q).
Proof.
  revert p. induction l as [|a l IH]; intros p; simpl; [discriminate|].
  destruct (Spec.containsb a age) eqn:Ea.
  - apply containsb_true in Ea.
    destruct (Spec.activeRegime l age) as [r|] eqn:Er.
    + destruct (IH r eq_refl) as (l1 & l2 & -> & Hc & Hbefore & Hafter).
      destruct (Rlt_dec (Period.startAge r) (Period.startAge a)) as [Hlt|Hge];
        intros [= <-].
      * exists (a :: l1), l2. repeat split; try assumption; try apply Hc.
        intros q [<-|Hq] Hcq; [exact Hlt | now apply Hbefore].
      * exists [], (l1 ++ r :: l2). repeat split; try apply Ea.
        -- intros q [].
        -- intros q Hq Hcq. apply in_app_or in Hq.
           destruct Hq as [Hq|[<-|Hq]].
           ++ specialize (Hbefore q Hq Hcq). lra.
           ++ lra.
           ++ specialize (Hafter q Hq Hcq). lra.
    + intros [= <-]. exists [], l. repeat split; try apply Ea.
      * intros q [].
      * intros q Hq Hcq. apply activeRegime_None in Er.
        rewrite Forall_forall in Er. now destruct (Er q Hq).
  - apply containsb_false in Ea. intros H.
    destruct (IH p H) as (l1 & l2 & -> & Hc & Hbefore & Hafter).
    exists (a :: l1), l2. repeat split; try assumption; try apply Hc.
    intros q [<-|Hq] Hcq; [contradiction | now apply Hbefore].
Qed.

(** A regime that contains no age can be dropped from the list. *)
Lemma activeRegime_drop l1 p l2 age :
  ~ contains p age ->
  Spec.activeRegime (l1 ++ p :: l2) age = Spec.activeRegime (l1 ++ l2) age.
Proof.
  intros Hp. apply containsb_false in Hp.
  induction l1 as [|a l1 IH]; simpl.
  - now rewrite Hp.
  - now rewrite IH.
Qed.



(** ** What the returned array looks like *)

Lemma yearEnds_spec {rnd : Rounding} inputs m :
  In m (Spec.yearEnds inputs) ->
  (12 <= m <= monthCount inputs)%nat /\ (m mod 12 = 0)%nat.
Proof.
  unfold Spec.yearEnds. rewrite <- monthCount_spec, filter_In, in_seq.
  intros [Hr Hm]. apply Nat.eqb_eq in Hm.
  split; [|exact Hm].
  assert (m mod 12 < 12)%nat by (apply Nat.mod_upper_bound; lia).
  pose proof (Nat.div_mod_eq m 12). lia.
Qed.

Lemma project_Forall {rnd : Rounding} inputs (P : YearlyBalance.t -> Prop) :
  P (Spec.firstSnapshot inputs) ->
  (forall m, In m (Spec.yearEnds inputs) -> P (Spec.snapshot inputs m)) ->
  Forall P (Spec.project inputs).
Proof.
  intros H0 H. constructor; [exact H0|].
  rewrite Forall_map, Forall_forall. exact H.
Qed.

(** ** The claims *)

(** C1.  For a non-empty regime list, the array [calculateGrowth] returns
    is the trajectory recomputed by the specification's monthly-step
    definition [Spec.project]: each month the return of the active regime
    (its override, else the global rate, over 100 and over 12) multiplies
    the balance before the contribution is added and the inflation-scaled
    spending subtracted; the inflation multiplier is advanced before it
    scales the spending; every twelfth month the tax, if enabled, is
    subtracted after the month's growth and before growth and real balance
    of the snapshot are computed.  The number of months and the ages are
    the rounded ones on both sides, whatever the rounding. *)
Theorem calculateGrowth_is_monthly_step_recomputation {rnd : Rounding}
    inputs :
  CalculationInputs.periods inputs <> [] ->
  calculateGrowth inputs = Return (Spec.project inputs).
Proof.
  intros Hne.
  (* the loop runs monthCount times ... *)
  rewrite calculateGrowth_Return by assumption.
  (* ... pushing the first snapshot and one snapshot per completed year,
     each read off a state that agrees with the specification's ... *)
  rewrite stateAfter_yearlyBalances.
  (* ... over the same number of months. *)
  unfold Spec.project, Spec.yearEnds.
  rewrite <- monthCount_spec. reflexivity.
Qed.

Lemma calculateGrowth_is_monthly_step_recomputation_witness :
  calculateGrowth (rnd := unrounded) compoundScenario
  = Return (Spec.project (rnd := unrounded) compoundScenario).
Proof.
  apply calculateGrowth_is_monthly_step_recomputation. discriminate.
Defined.

(** C2.  [calculateGrowth] throws exactly when the regime list is empty;
    on every non-empty regime list, whatever the horizon, the returns and
    the initial balance, it returns an array of snapshots. *)
Theorem calculateGrowth_throws_iff_no_regime {rnd : Rounding} inputs :
  ((exists message, calculateGrowth inputs = Throw message)
   <-> CalculationInputs.periods inputs = [])
  /\ (CalculationInputs.periods inputs <> [] ->
      exists snapshots, calculateGrowth inputs = Return snapshots).
Proof.
  split; [split|].
  - intros [message H].
    destruct (CalculationInputs.periods inputs) eqn:E; [reflexivity|].
    rewrite calculateGrowth_Return in H by (rewrite E; discriminate).
    discriminate.
  - intros E. eexists. now apply calculateGrowth_Throw.
  - intros Hne. eexists. now apply calculateGrowth_Return.
Qed.

(** C3.  The regimes are scanned in a sorted copy of the input list (a
    permutation of it, ascending in [startAge]); the active regime for an
    age is the first regime of that copy whose interval
    [[startAge, endAge)] contains the age; there is none exactly when no
    regime of the input contains the age.  The age a month step queries is
    [currentAge], the age the engine computes for the start of the month:
    when the lookup selects a regime there, the month applies that
    regime's return (its override, else the global rate), contribution and
    inflation-scaled spending; when [currentAge] lies in no regime, the
    balance grows at the global rate while nothing is contributed or
    spent. *)
Theorem active_regime_is_first_match_in_sorted_copy {rnd : Rounding} inputs :
  Permutation (CalculationInputs.periods inputs) (sortedPeriods inputs)
  /\ StronglySorted startLe (sortedPeriods inputs)
  /\ (forall age p,
        getPeriodForAge (sortedPeriods inputs) age = Some p ->
        exists before after,
          sortedPeriods inputs = before ++ p :: after
          /\ contains p age
          /\ Forall (fun q => ~ contains q age) before)
  /\ (forall age,
        getPeriodForAge (sortedPeriods inputs) age = None
        <-> Forall (fun q => ~ contains q age)
                   (CalculationInputs.periods inputs))
  /\ (forall month st p,
        getPeriodForAge (sortedPeriods inputs) (currentAge inputs month)
        = Some p ->
        balance (monthFlows inputs month st)
        = balance st
          * (1 + nullish (Period.annualReturn p)
                   (CalculationInputs.annualReturn inputs) / 100 / 12)
          + Period.monthlyContribution p
          - Period.monthlySpending p
            * (inflationMultiplier st * monthlyInflationFactor inputs)
        /\ totalContributions (monthFlows inputs month st)
           = totalContributions st + Period.monthlyContribution p)
  /\ (forall month st,
        Forall (fun q => ~ contains q (currentAge inputs month))
               (CalculationInputs.periods inputs) ->
        balance (monthFlows inputs month st)
        = balance st * (1 + CalculationInputs.annualReturn inputs / 100 / 12)
        /\ totalContributions (monthFlows inputs month st)
           = totalContributions st).
Proof.
  assert (forall age,
    getPeriodForAge (sortedPeriods inputs) age = None
    <-> Forall (fun q => ~ contains q age) (CalculationInputs.periods inputs))
    as Hnone.
  { intros age. unfold sortedPeriods.
    rewrite getPeriodForAge_sorted. apply activeRegime_None. }
  repeat split.
  - apply Array_sort_perm.
  - apply Array_sort_sorted.
  - intros age p. apply getPeriodForAge_first.
  - apply Hnone.
  - apply Hnone.
  - unfold monthFlows. rewrite H. reflexivity.
  - unfold monthFlows. rewrite H. reflexivity.
  - unfold monthFlows. apply Hnone in H. rewrite H. reflexivity.
  - unfold monthFlows. apply Hnone in H. rewrite H. reflexivity.
Qed.

(** C4.  When the horizon age minus the minimum start age of the regimes
    is zero or negative, [calculateGrowth] returns exactly one snapshot:
    at the start age, with balance and contributions equal to the initial
    balance, growth 0 and tax paid 0; the loop body is never run (rounding
    keeps the sign of the span). *)
Theorem no_span_gives_single_snapshot {rnd : Rounding} inputs :
  CalculationInputs.periods inputs <> [] ->
  endAge inputs - Spec.minStartAge (CalculationInputs.periods inputs) <= 0 ->
  exists s,
    calculateGrowth inputs = Return [s]
    /\ YearlyBalance.age s
       = Spec.minStartAge (CalculationInputs.periods inputs)
    /\ YearlyBalance.balance s = CalculationInputs.initialAmount inputs
    /\ YearlyBalance.contributions s = CalculationInputs.initialAmount inputs
    /\ YearlyBalance.growth s = 0
    /\ YearlyBalance.taxPaid s = 0
    /\ forLoop inputs 1%nat (initialState inputs) = initialState inputs.
Proof.
  intros Hne Hspan.
  assert (forLoop inputs 1%nat (initialState inputs) = initialState inputs)
    as Hloop.
  { apply forLoop_exit.
    assert (months inputs <= 0) as Hmonths
      by (apply months_nonpos; rewrite startAge_min; exact Hspan).
    cbn [INR]. lra. }
  assert (calculateGrowth inputs = Return (yearlyBalances (initialState inputs)))
    as Hret.
  { unfold calculateGrowth. rewrite Hloop. unfold sortedPeriods.
    destruct (Array_sort byStartAge (CalculationInputs.periods inputs)) eqn:E.
    - apply (proj1 (Array_sort_nil_iff _)) in E. contradiction.
    - reflexivity. }
  rewrite Hret. unfold initialState at 1. cbn [yearlyBalances].
  eexists. split; [reflexivity|].
  cbn [YearlyBalance.age YearlyBalance.balance YearlyBalance.contributions
       YearlyBalance.growth YearlyBalance.taxPaid].
  rewrite startAge_min. repeat split. exact Hloop.
Qed.

Lemma no_span_gives_single_snapshot_witness :
  exists s,
    calculateGrowth (rnd := unrounded) emptySpanScenario = Return [s]
    /\ YearlyBalance.age s = 30
    /\ YearlyBalance.balance s = 5000
    /\ YearlyBalance.contributions s = 5000
    /\ YearlyBalance.growth s = 0
    /\ YearlyBalance.taxPaid s = 0
    /\ forLoop (rnd := unrounded) emptySpanScenario 1%nat
         (initialState emptySpanScenario)
       = initialState emptySpanScenario.
Proof.
  apply (no_span_gives_single_snapshot emptySpanScenario).
  - discriminate.
  - unfold endAge. simpl. lra.
Defined.

(** C5.  For a non-empty regime list, every returned snapshot, the first
    one included, satisfies [balance = contributions + growth]. *)
Theorem balance_is_contributions_plus_growth {rnd : Rounding} inputs :
  CalculationInputs.periods inputs <> [] ->
  exists snapshots,
    calculateGrowth inputs = Return snapshots
    /\ Forall (fun s => YearlyBalance.balance s
                        = YearlyBalance.contributions s + YearlyBalance.growth s)
              snapshots.
Proof.
  intros Hne. exists (Spec.project inputs).
  split; [now apply calculateGrowth_project|].
  apply project_Forall; [|intros m _]; simpl; lra.
Qed.

Lemma balance_is_contributions_plus_growth_witness :
  exists snapshots,
    calculateGrowth (rnd := unrounded) compoundScenario = Return snapshots
    /\ Forall (fun s => YearlyBalance.balance s
                        = YearlyBalance.contributions s + YearlyBalance.growth s)
              snapshots.
Proof.
  apply balance_is_contributions_plus_growth. discriminate.
Defined.

(** [Math.pow(1, y)] is 1. *)
Lemma Math_pow_base_1 y : Math_pow 1 y = 1.
Proof.
  unfold Math_pow, Rpower. rewrite ln_1, Rmult_0_r. apply exp_0.
Qed.

(** [Math.pow(x, y)] exceeds 1 for a base above 1 and a positive exponent. *)
Lemma Math_pow_gt_1 x y : 1 < x -> 0 < y -> 1 < Math_pow x y.
Proof.
  intros Hx Hy. unfold Math_pow.
  rewrite <- (Rpower_O x) by lra. now apply Rpower_lt.
Qed.

(** C8.  With an inflation rate of 0 (given or defaulted), every returned
    snapshot has [realBalance = balance]. *)
Theorem zero_inflation_real_balance_is_balance {rnd : Rounding} inputs :
  CalculationInputs.periods inputs <> [] ->
  inflationRate inputs = 0 ->
  exists snapshots,
    calculateGrowth inputs = Return snapshots
    /\ Forall (fun s => YearlyBalance.realBalance s = YearlyBalance.balance s)
              snapshots.
Proof.
  intros Hne Hzero. exists (Spec.project inputs).
  split; [now apply calculateGrowth_project|].
  apply project_Forall; [reflexivity|]. intros m _.
  unfold Spec.snapshot. cbn [YearlyBalance.realBalance YearlyBalance.balance].
  change (match CalculationInputs.inflationRate inputs with
          | Some i => i | None => 0 end) with (inflationRate inputs).
  rewrite Hzero.
  replace (1 + 0 / 100) with 1 by lra.
  rewrite Math_pow_base_1. lra.
Qed.

Lemma zero_inflation_real_balance_is_balance_witness :
  exists snapshots,
    calculateGrowth (rnd := unrounded) compoundScenario = Return snapshots
    /\ Forall (fun s => YearlyBalance.realBalance s = YearlyBalance.balance s)
              snapshots.
Proof.
  apply zero_inflation_real_balance_is_balance.
  - discriminate.
  - reflexivity.
Defined.

(** C9.  If the regime list contains a regime with [startAge = endAge],
    [calculateGrowth] returns normally, that regime is the active regime
    of no age, and every resolution gives what it gives on the list
    without that regime: it accounts for no month of contribution or
    spending. *)
Theorem zero_length_regime_is_never_active {rnd : Rounding} inputs p :
  In p (CalculationInputs.periods inputs) ->
  Period.startAge p = Period.endAge p ->
  (exists snapshots, calculateGrowth inputs = Return snapshots)
  /\ (forall age, getPeriodForAge (sortedPeriods inputs) age <> Some p)
  /\ (forall l1 l2 age,
        CalculationInputs.periods inputs = l1 ++ p :: l2 ->
        getPeriodForAge (sortedPeriods inputs) age
        = getPeriodForAge (Array_sort byStartAge (l1 ++ l2)) age).
Proof.
  intros Hin Hzero.
  assert (forall age, ~ contains p age) as Hnever
    by (intros age; unfold contains; lra).
  repeat split.
  - eexists. apply calculateGrowth_Return. intros E. now rewrite E in Hin.
  - intros age H. apply getPeriodForAge_Some in H.
    now apply (Hnever age).
  - intros l1 l2 age E. unfold sortedPeriods.
    rewrite E, !getPeriodForAge_sorted. now apply activeRegime_drop.
Qed.

Lemma zero_length_regime_is_never_active_witness :
  (exists snapshots,
     calculateGrowth (rnd := unrounded) zeroLengthScenario = Return snapshots)
  /\ (forall age,
        getPeriodForAge (sortedPeriods zeroLengthScenario) age
        <> Some zeroLengthRegime)
  /\ (forall l1 l2 age,
        CalculationInputs.periods zeroLengthScenario
        = l1 ++ zeroLengthRegime :: l2 ->
        getPeriodForAge (sortedPeriods zeroLengthScenario) age
        = getPeriodForAge (Array_sort byStartAge (l1 ++ l2)) age).
Proof.
  apply zero_length_regime_is_never_active.
  - simpl. now left.
  - reflexivity.
Defined.


(** ** Inflation *)

Lemma INR_12_le m : (12 <= m)%nat -> 12 <= INR m.
Proof.
  intros H. apply le_INR in H.
  replace (INR 12) with 12 in H by (simpl; lra). exact H.
Qed.

Lemma Rinv_lt_1 d : 1 < d -> / d < 1.
Proof.
  intros Hd.
  assert (0 < / d) by (apply Rinv_0_lt_compat; lra).
  assert (/ d * d = 1) by (apply Rinv_l; lra).
  nra.
Qed.

(** Dividing by a number above 1 moves a balance towards 0. *)
Lemma deflate_sign b d :
  1 < d ->
  (0 < b -> b / d < b) /\ (b = 0 -> b / d = b) /\ (b < 0 -> b < b / d).
Proof.
  intros Hd. unfold Rdiv.
  assert (0 < / d) by (apply Rinv_0_lt_compat; lra).
  assert (/ d < 1) by (apply Rinv_lt_1; lra).
  repeat split; intros; subst; nra.
Qed.

(** C7, as amended.  With an inflation rate above 0, in every snapshot
    after the first the real balance lies strictly between 0 and the
    balance: it is strictly less than a positive balance, equal to a zero
    balance, and strictly greater than a negative balance. *)
Theorem positive_inflation_deflates_towards_zero {rnd : Rounding} inputs :
  CalculationInputs.periods inputs <> [] ->
  0 < inflationRate inputs ->
  exists first rest,
    calculateGrowth inputs = Return (first :: rest)
    /\ Forall (fun s =>
         (0 < YearlyBalance.balance s ->
          YearlyBalance.realBalance s < YearlyBalance.balance s)
         /\ (YearlyBalance.balance s = 0 ->
             YearlyBalance.realBalance s = YearlyBalance.balance s)
         /\ (YearlyBalance.balance s < 0 ->
             YearlyBalance.balance s < YearlyBalance.realBalance s))
       rest.
Proof.
  intros Hne Hpos.
  exists (Spec.firstSnapshot inputs),
         (map (Spec.snapshot inputs) (Spec.yearEnds inputs)).
  split; [now apply calculateGrowth_project|].
  rewrite Forall_map, Forall_forall. intros m Hm.
  apply yearEnds_spec in Hm. destruct Hm as [[Hm _] _].
  apply INR_12_le in Hm.
  unfold Spec.snapshot. cbn [YearlyBalance.realBalance YearlyBalance.balance].
  change (match CalculationInputs.inflationRate inputs with
          | Some i => i | None => 0 end) with (inflationRate inputs).
  apply deflate_sign. apply Math_pow_gt_1; lra.
Qed.

Lemma positive_inflation_deflates_towards_zero_witness :
  exists first rest,
    calculateGrowth (rnd := unrounded) (inflationScenario 1000)
    = Return (first :: rest)
    /\ Forall (fun s =>
         (0 < YearlyBalance.balance s ->
          YearlyBalance.realBalance s < YearlyBalance.balance s)
         /\ (YearlyBalance.balance s = 0 ->
             YearlyBalance.realBalance s = YearlyBalance.balance s)
         /\ (YearlyBalance.balance s < 0 ->
             YearlyBalance.balance s < YearlyBalance.realBalance s))
       rest.
Proof.
  apply positive_inflation_deflates_towards_zero.
  - discriminate.
  - unfold inflationRate. simpl. lra.
Defined.

(** ** The scenarios, evaluated *)

Lemma Int_part_INR n : Int_part (INR n) = Z.of_nat n.
Proof.
  symmetry. apply Int_part_spec. rewrite INR_IZR_INZ. lra.
Qed.

Lemma monthCount_INR {rnd : Rounding} inputs n :
  months inputs = INR n -> monthCount inputs = n.
Proof.
  intros E. unfold monthCount. rewrite E, Int_part_INR. apply Nat2Z.id.
Qed.

Lemma yearEnds_monthCount {rnd : Rounding} inputs :
  Spec.yearEnds inputs
  = filter (fun m => (m mod 12 =? 0)%nat) (seq 1 (monthCount inputs)).
Proof. unfold Spec.yearEnds. now rewrite monthCount_spec. Qed.

(** A span of whole years, whatever the rounding: the whole numbers
    involved are not changed by it. *)
Lemma monthCount_whole_years {rnd : Rounding} inputs years n :
  n = (12 * years)%nat ->
  (Z.of_nat n <= 2 ^ 53)%Z ->
  endAge inputs - startAge inputs = INR years ->
  monthCount inputs = n.
Proof.
  intros -> Hbound Hspan. apply monthCount_INR.
  assert (Z.abs (Z.of_nat years) <= 2 ^ 53
          /\ Z.abs (Z.of_nat (12 * years)) <= 2 ^ 53)%Z as [Hy Hm]
    by (revert Hbound; generalize (2 ^ 53)%Z; lia).
  unfold months, totalYears. rewrite Hspan.
  rewrite (fl_whole (Z.of_nat years) (INR years))
    by (apply INR_IZR_INZ || exact Hy).
  assert (INR years * 12 = INR (12 * years)) as ->
    by (rewrite mult_INR, (INR_IZR_INZ 12);
        cbn [Z.of_nat Pos.of_succ_nat Pos.succ]; lra).
  apply (fl_whole (Z.of_nat (12 * years))); [apply INR_IZR_INZ | exact Hm].
Qed.

(** The number of months of a scenario with literal ages, [years] whole
    years apart. *)
Ltac count_months years :=
  apply (monthCount_whole_years _ years);
  [ reflexivity
  | vm_compute; discriminate
  | rewrite startAge_min; unfold Spec.start, endAge;
    cbn [idleInputs CalculationInputs.periods CalculationInputs.endAge nullish
         Spec.minStartAge idleRegime Period.startAge];
    rewrite INR_IZR_INZ; cbn [Z.of_nat Pos.of_succ_nat Pos.succ]; lra ].

(** A month of an idle regime only compounds the balance. *)
Lemma idle_flows {rnd : Rounding} initial ret horizon infl tax month s :
  Spec.bal (Spec.flows (idleInputs initial ret horizon infl tax) month s)
  = Spec.bal s * (1 + ret / 100 / 12)
  /\ Spec.contrib (Spec.flows (idleInputs initial ret horizon infl tax) month s)
     = Spec.contrib s
  /\ Spec.tax (Spec.flows (idleInputs initial ret horizon infl tax) month s)
     = Spec.tax s.
Proof.
  unfold Spec.flows. cbn [idleInputs CalculationInputs.periods
    CalculationInputs.annualReturn Spec.activeRegime].
  destruct (Spec.containsb _ _);
    cbn [Spec.bal Spec.contrib Spec.tax idleRegime Period.annualReturn
         Period.monthlyContribution Period.monthlySpending];
    repeat split; ring.
Qed.

(** Within the first year only the compounding shows. *)
Lemma idle_first_year {rnd : Rounding} initial ret horizon infl tax n :
  (n < 12)%nat ->
  Spec.bal (Spec.stateAt (idleInputs initial ret horizon infl tax) n)
  = initial * (1 + ret / 100 / 12) ^ n
  /\ Spec.contrib (Spec.stateAt (idleInputs initial ret horizon infl tax) n)
     = initial
  /\ Spec.tax (Spec.stateAt (idleInputs initial ret horizon infl tax) n) = 0.
Proof.
  intros Hn. induction n as [|n IH].
  - cbn [Spec.stateAt Spec.initial Spec.bal Spec.contrib Spec.tax idleInputs
         CalculationInputs.initialAmount pow].
    repeat split; ring.
  - destruct IH as (Hb & Hc & Ht); [lia|].
    cbn [Spec.stateAt]. unfold Spec.step.
    replace (S n mod 12 =? 0)%nat with false
      by (symmetry; apply Nat.eqb_neq; rewrite Nat.mod_small; lia).
    destruct (idle_flows initial ret horizon infl tax (S n)
                (Spec.stateAt (idleInputs initial ret horizon infl tax) n))
      as (Fb & Fc & Ft).
    rewrite Fb, Fc, Ft, Hb, Hc, Ht. cbn [pow].
    repeat split; ring.
Qed.

(** The state at the first yearly boundary: twelve months of compounding,
    then the tax when it is enabled. *)
Lemma idle_year_1 {rnd : Rounding} initial ret horizon infl tax :
  Spec.stateAt (idleInputs initial ret horizon infl tax) 12
  = Spec.yearEndTax (idleInputs initial ret horizon infl tax)
      (Spec.flows (idleInputs initial ret horizon infl tax) 12
         (Spec.stateAt (idleInputs initial ret horizon infl tax) 11))
  /\ Spec.bal (Spec.flows (idleInputs initial ret horizon infl tax) 12
         (Spec.stateAt (idleInputs initial ret horizon infl tax) 11))
     = initial * (1 + ret / 100 / 12) ^ 12
  /\ Spec.contrib (Spec.flows (idleInputs initial ret horizon infl tax) 12
         (Spec.stateAt (idleInputs initial ret horizon infl tax) 11))
     = initial
  /\ Spec.tax (Spec.flows (idleInputs initial ret horizon infl tax) 12
         (Spec.stateAt (idleInputs initial ret horizon infl tax) 11))
     = 0.
Proof.
  destruct (idle_first_year initial ret horizon infl tax 11)
    as (Hb & Hc & Ht); [lia|].
  destruct (idle_flows initial ret horizon infl tax 12
              (Spec.stateAt (idleInputs initial ret horizon infl tax) 11))
    as (Fb & Fc & Ft).
  split; [reflexivity|].
  rewrite Fb, Fc, Ft, Hb, Hc, Ht.
  change ((1 + ret / 100 / 12) ^ 12)
    with ((1 + ret / 100 / 12) * (1 + ret / 100 / 12) ^ 11).
  generalize ((1 + ret / 100 / 12) ^ 11). intros p.
  repeat split; ring.
Qed.

(** The snapshots an idle scenario returns: the first one, and one per
    year end. *)
Lemma idle_snapshots {rnd : Rounding} initial ret horizon infl tax n :
  monthCount (idleInputs initial ret horizon infl tax) = n ->
  calculateGrowth (idleInputs initial ret horizon infl tax)
  = Return (Spec.firstSnapshot (idleInputs initial ret horizon infl tax)
            :: map (Spec.snapshot (idleInputs initial ret horizon infl tax))
                   (filter (fun m => (m mod 12 =? 0)%nat) (seq 1 n))).
Proof.
  intros <-. rewrite calculateGrowth_project by discriminate.
  unfold Spec.project. now rewrite yearEnds_monthCount.
Qed.

(** Section 8 of the specification: 10000 at 12% over one year gives two
    snapshots, the second with balance [10000 * 1.01 ^ 12]. *)
Example compoundScenario_result {rnd : Rounding} :
  exists s0 s1,
    calculateGrowth compoundScenario = Return [s0; s1]
    /\ YearlyBalance.age s0 = 30 /\ YearlyBalance.balance s0 = 10000
    /\ YearlyBalance.age s1 = 31
    /\ YearlyBalance.balance s1 = 10000 * (101 / 100) ^ 12
    /\ YearlyBalance.contributions s1 = 10000
    /\ YearlyBalance.growth s1 = 10000 * (101 / 100) ^ 12 - 10000.
Proof.
  unfold compoundScenario.
  rewrite (idle_snapshots _ _ _ _ _ 12) by count_months 1%nat.
  change (filter _ (seq 1 12)) with [12%nat]. cbn [map].
  do 2 eexists. split; [reflexivity|].
  unfold Spec.snapshot, Spec.firstSnapshot.
  cbn [YearlyBalance.age YearlyBalance.balance YearlyBalance.contributions
       YearlyBalance.growth].
  destruct (idle_year_1 10000 12 31 None None) as (E & Hb & Hc & _).
  rewrite E. unfold Spec.yearEndTax.
  change (Spec.taxEnabled (idleInputs 10000 12 31 None None)) with false.
  cbv iota. rewrite Hb, Hc.
  replace (1 + 12 / 100 / 12) with (101 / 100) by lra.
  generalize ((101 / 100) ^ 12). intros p.
  unfold Spec.start.
  cbn [idleInputs CalculationInputs.periods Spec.minStartAge idleRegime
       Period.startAge Spec.initial Spec.bal CalculationInputs.initialAmount].
  rewrite INR_IZR_INZ. cbn [Z.of_nat Pos.of_succ_nat Pos.succ].
  rewrite (fl_whole 31) by (lra || discriminate).
  repeat split; lra.
Qed.

(** One year at 2% inflation: the second snapshot has the initial amount
    as balance, and that amount over 1.02 as real balance. *)
Lemma inflationScenario_year_1 {rnd : Rounding} initial :
  exists s0 s1,
    calculateGrowth (inflationScenario initial) = Return [s0; s1]
    /\ YearlyBalance.balance s1 = initial
    /\ YearlyBalance.realBalance s1 = initial / 1.02.
Proof.
  unfold inflationScenario.
  rewrite (idle_snapshots _ _ _ _ _ 12) by count_months 1%nat.
  change (filter _ (seq 1 12)) with [12%nat]. cbn [map].
  do 2 eexists. split; [reflexivity|].
  unfold Spec.snapshot.
  cbn [YearlyBalance.balance YearlyBalance.realBalance].
  destruct (idle_year_1 initial 0 31 (Some 2) None) as (E & Hb & _).
  rewrite E. unfold Spec.yearEndTax.
  change (Spec.taxEnabled (idleInputs initial 0 31 (Some 2) None)) with false.
  cbv iota. rewrite Hb.
  replace (1 + 0 / 100 / 12) with 1 by lra. rewrite pow1.
  cbn [idleInputs CalculationInputs.inflationRate].
  replace (INR 12 / 12) with 1
    by (rewrite INR_IZR_INZ; cbn [Z.of_nat Pos.of_succ_nat Pos.succ]; lra).
  unfold Math_pow. rewrite Rpower_1 by lra.
  replace (1 + 2 / 100) with 1.02 by lra.
  split; lra.
Qed.

(** C7, counterexample.  One year at 2% inflation from a balance of
    -1000: the second snapshot has balance -1000 and real balance
    [-1000 / 1.02], which is not below the balance.  (By
    [inflationScenario_year_1] the rounding does not matter.) *)
Lemma real_balance_above_negative_balance :
  0 < inflationRate (inflationScenario (-1000))
  /\ exists s0 s1,
       calculateGrowth (rnd := unrounded) (inflationScenario (-1000))
       = Return [s0; s1]
       /\ YearlyBalance.balance s1 = -1000
       /\ YearlyBalance.realBalance s1 = -1000 / 1.02
       /\ ~ YearlyBalance.realBalance s1 < YearlyBalance.balance s1.
Proof.
  split.
  { unfold inflationRate, inflationScenario.
    cbn [idleInputs CalculationInputs.inflationRate nullish]. lra. }
  destruct (inflationScenario_year_1 (rnd := unrounded) (-1000))
    as (s0 & s1 & E & Hb & Hr).
  exists s0, s1. repeat split; [exact E | exact Hb | exact Hr |].
  rewrite Hb, Hr. lra.
Qed.
(** ** Tax *)

Lemma monthFlows_tax {rnd : Rounding} inputs month st :
  cumulativeTaxPaid (monthFlows inputs month st) = cumulativeTaxPaid st.
Proof.
  unfold monthFlows. destruct (getPeriodForAge _ _); reflexivity.
Qed.

(** What one iteration adds to the cumulative tax. *)
Lemma loopBody_tax {rnd : Rounding} inputs month st :
  cumulativeTaxPaid (loopBody inputs month st)
  = cumulativeTaxPaid st
    + if (month mod 12 =? 0)%nat && iskEnabled inputs
      then balance (monthFlows inputs month st) * (iskRate inputs / 100) * 0.30
      else 0.
Proof.
  unfold loopBody, pushYear, applyIskTax.
  destruct (month mod 12 =? 0)%nat, (iskEnabled inputs);
    cbn [cumulativeTaxPaid andb]; rewrite monthFlows_tax; lra.
Qed.

Section TaxMonotone.
Context {rnd : Rounding}.
Variable inputs : CalculationInputs.t.
Hypothesis rate_nonneg : 0 <= iskRate inputs.
Hypothesis charged_nonneg : forall month,
  (1 <= month <= monthCount inputs)%nat -> (month mod 12 = 0)%nat ->
  0 <= preTaxBalance inputs month.

Lemma tax_step_le n :
  (n < monthCount inputs)%nat ->
  cumulativeTaxPaid (stateAfter inputs n)
  <= cumulativeTaxPaid (stateAfter inputs (S n)).
Proof.
  intros Hn. rewrite stateAfter_S, loopBody_tax.
  destruct (S n mod 12 =? 0)%nat eqn:E; cbn [andb]; [|lra].
  destruct (iskEnabled inputs); [|lra].
  apply Nat.eqb_eq in E.
  assert (0 <= preTaxBalance inputs (S n)) as Hpre
    by (apply charged_nonneg; [lia | exact E]).
  unfold preTaxBalance in Hpre.
  replace (S n - 1)%nat with n in Hpre by lia.
  assert (0 <= iskRate inputs / 100) by lra.
  nra.
Qed.

Lemma tax_monotone n n' :
  (n <= n' <= monthCount inputs)%nat ->
  cumulativeTaxPaid (stateAfter inputs n)
  <= cumulativeTaxPaid (stateAfter inputs n').
Proof.
  intros [Hle Hn']. induction Hle as [|n' Hle IH]; [lra|].
  etransitivity; [apply IH; lia | apply tax_step_le; lia].
Qed.
End TaxMonotone.

Lemma seq_sorted a n : StronglySorted lt (seq a n).
Proof.
  revert a. induction n as [|n IH]; intros a; cbn [seq]; constructor.
  - apply IH.
  - rewrite Forall_forall. intros m Hm. apply in_seq in Hm. lia.
Qed.

Lemma filter_sorted {A} (rel : A -> A -> Prop) f l :
  StronglySorted rel l -> StronglySorted rel (filter f l).
Proof.
  induction 1 as [|a l Hs IH Ha]; cbn [filter]; [constructor|].
  destruct (f a); [|exact IH].
  constructor; [exact IH|].
  rewrite Forall_forall in *. intros b Hb. apply filter_In in Hb.
  now apply Ha.
Qed.

Lemma map_sorted (f : nat -> R) bound l :
  (forall a b, (a <= b <= bound)%nat -> f a <= f b) ->
  Forall (fun m => (m <= bound)%nat) l ->
  StronglySorted lt l -> StronglySorted Rle (map f l).
Proof.
  intros Hf Hb Hs. induction Hs as [|a l Hs IH Ha]; cbn [map]; constructor.
  - apply IH. now inversion Hb.
  - inversion Hb as [|? ? _ Hb']; subst.
    rewrite Forall_forall in Ha, Hb'.
    rewrite Forall_map, Forall_forall. intros b Hin.
    apply Hf. specialize (Ha b Hin). specialize (Hb' b Hin). lia.
Qed.

(** The [taxPaid] column, read off the loop states. *)
Lemma project_taxPaid {rnd : Rounding} inputs :
  map YearlyBalance.taxPaid (Spec.project inputs)
  = map (fun m => cumulativeTaxPaid (stateAfter inputs m))
        (0%nat :: Spec.yearEnds inputs).
Proof.
  unfold Spec.project. cbn [map]. f_equal.
  rewrite map_map. apply map_ext. intros m.
  unfold Spec.snapshot. cbn [YearlyBalance.taxPaid].
  now rewrite <- stateAfter_spec.
Qed.

Lemma yearEnds_sorted {rnd : Rounding} inputs :
  StronglySorted lt (0%nat :: Spec.yearEnds inputs)
  /\ Forall (fun m => (m <= monthCount inputs)%nat)
            (0%nat :: Spec.yearEnds inputs).
Proof.
  split.
  - constructor.
    + unfold Spec.yearEnds. apply filter_sorted, seq_sorted.
    + rewrite Forall_forall. intros m Hm. apply yearEnds_spec in Hm. lia.
  - constructor; [lia|].
    rewrite Forall_forall. intros m Hm. apply yearEnds_spec in Hm. lia.
Qed.

(** C6, as amended.  With the tax enabled at a fixed borrowing rate that
    is not negative, the cumulative [taxPaid] is non-decreasing along the
    returned snapshots provided the balance on which each year's tax is
    charged (the balance after the twelfth month's growth and cash flows)
    is not negative. *)
Theorem taxPaid_nondecreasing_when_charged_balances_nonnegative
    {rnd : Rounding} inputs :
  CalculationInputs.periods inputs <> [] ->
  iskEnabled inputs = true ->
  0 <= iskRate inputs ->
  (forall month,
     (1 <= month <= monthCount inputs)%nat -> (month mod 12 = 0)%nat ->
     0 <= preTaxBalance inputs month) ->
  exists snapshots,
    calculateGrowth inputs = Return snapshots
    /\ StronglySorted Rle (map YearlyBalance.taxPaid snapshots).
Proof.
  intros Hne _ Hrate Hcharged. exists (Spec.project inputs).
  split; [now apply calculateGrowth_project|].
  rewrite project_taxPaid.
  destruct (yearEnds_sorted inputs) as [Hs Hb].
  apply (map_sorted _ (monthCount inputs)); try assumption.
  intros a b Hab. now apply tax_monotone.
Qed.

(** The balance on which tax is charged, in the specification's terms. *)
Lemma preTaxBalance_spec {rnd : Rounding} inputs month :
  preTaxBalance inputs month
  = Spec.bal (Spec.flows inputs month (Spec.stateAt inputs (month - 1))).
Proof.
  unfold preTaxBalance.
  rewrite <- stateAfter_spec, <- monthFlows_spec. reflexivity.
Qed.


(** In the tax scenario a balance that starts non-negative stays so. *)
Lemma taxScenario_balance_nonneg {rnd : Rounding} initial n :
  0 <= initial -> 0 <= Spec.bal (Spec.stateAt (taxScenario initial) n).
Proof.
  intros Hi. unfold taxScenario. induction n as [|n IH]; [exact Hi|].
  cbn [Spec.stateAt]. unfold Spec.step.
  destruct (idle_flows initial 0 32 None (Some (IskTax.mk true 2.5)) (S n)
              (Spec.stateAt
                 (idleInputs initial 0 32 None (Some (IskTax.mk true 2.5))) n))
    as (Fb & _).
  destruct (S n mod 12 =? 0)%nat.
  - unfold Spec.yearEndTax, Spec.taxEnabled, Spec.taxRateBasis.
    cbn [idleInputs CalculationInputs.iskTax IskTax.enabled
         IskTax.governmentBorrowingRate Spec.bal].
    rewrite Fb. lra.
  - rewrite Fb. lra.
Qed.

Lemma taxScenario_charged_nonneg {rnd : Rounding} initial month :
  0 <= initial -> 0 <= preTaxBalance (taxScenario initial) month.
Proof.
  intros Hi. rewrite preTaxBalance_spec.
  pose proof (taxScenario_balance_nonneg initial (month - 1) Hi) as Hb.
  unfold taxScenario in *.
  destruct (idle_flows initial 0 32 None (Some (IskTax.mk true 2.5)) month
              (Spec.stateAt
                 (idleInputs initial 0 32 None (Some (IskTax.mk true 2.5)))
                 (month - 1)))
    as (Fb & _).
  rewrite Fb. lra.
Qed.

Lemma taxPaid_nondecreasing_when_charged_balances_nonnegative_witness :
  exists snapshots,
    calculateGrowth (rnd := unrounded) (taxScenario 1000000) = Return snapshots
    /\ StronglySorted Rle (map YearlyBalance.taxPaid snapshots).
Proof.
  apply taxPaid_nondecreasing_when_charged_balances_nonnegative.
  - discriminate.
  - reflexivity.
  - unfold iskRate, taxScenario.
    cbn [idleInputs CalculationInputs.iskTax IskTax.governmentBorrowingRate].
    lra.
  - intros month _ _. apply taxScenario_charged_nonneg. lra.
Defined.

(** The tax scenario returns three snapshots; the tax paid by the second
    is 0.75% of the initial balance. *)
Lemma taxScenario_year_1 {rnd : Rounding} initial :
  exists s0 s1 s2,
    calculateGrowth (taxScenario initial) = Return [s0; s1; s2]
    /\ YearlyBalance.taxPaid s0 = 0
    /\ YearlyBalance.taxPaid s1 = initial * 0.0075.
Proof.
  unfold taxScenario.
  rewrite (idle_snapshots _ _ _ _ _ 24) by count_months 2%nat.
  change (filter _ (seq 1 24)) with [12%nat; 24%nat]. cbn [map].
  do 3 eexists. split; [reflexivity|].
  split; [reflexivity|].
  unfold Spec.snapshot. cbn [YearlyBalance.taxPaid].
  destruct (idle_year_1 initial 0 32 None (Some (IskTax.mk true 2.5)))
    as (E & Hb & _ & Ht).
  rewrite E.
  unfold Spec.yearEndTax, Spec.taxEnabled, Spec.taxRateBasis.
  cbn [idleInputs CalculationInputs.iskTax IskTax.enabled
       IskTax.governmentBorrowingRate Spec.tax].
  rewrite Hb, Ht.
  replace (1 + 0 / 100 / 12) with 1 by lra. rewrite pow1. lra.
Qed.

(** Section 8 of the specification: from 1000000 the tax paid at age 31
    is 7500. *)
Example taxScenario_result {rnd : Rounding} :
  exists s0 s1 s2,
    calculateGrowth (taxScenario 1000000) = Return [s0; s1; s2]
    /\ YearlyBalance.taxPaid s1 = 7500.
Proof.
  destruct (taxScenario_year_1 1000000) as (s0 & s1 & s2 & E & _ & H1).
  exists s0, s1, s2. split; [exact E | lra].
Qed.

(** C6, counterexample.  The tax scenario (enabled, rate 2.5) from an
    initial balance of -1000000: the first snapshot has paid 0, the second
    -7500, so the cumulative tax decreases.  (By [taxScenario_year_1] the
    rounding does not matter.) *)
Lemma taxPaid_decreases_on_negative_balance :
  iskEnabled (taxScenario (-1000000)) = true
  /\ exists s0 s1 s2,
       calculateGrowth (rnd := unrounded) (taxScenario (-1000000))
       = Return [s0; s1; s2]
       /\ YearlyBalance.taxPaid s0 = 0
       /\ YearlyBalance.taxPaid s1 = -7500
       /\ ~ StronglySorted Rle (map YearlyBalance.taxPaid [s0; s1; s2]).
Proof.
  split; [reflexivity|].
  destruct (taxScenario_year_1 (rnd := unrounded) (-1000000))
    as (s0 & s1 & s2 & E & H0 & H1).
  exists s0, s1, s2. repeat split; [exact E | exact H0 | lra |].
  intros S. inversion S as [|? ? _ Hall]; subst.
  cbn [map] in Hall. inversion Hall as [|? ? Hle _]; subst. lra.
Qed.
(** ** Resolution on overlapping regimes *)

(** Settles the comparisons of a closed goal, one at a time. *)
Ltac settle_comparisons :=
  unfold Rgtb, Rgeb, Rltb, Rleb, byStartAge;
  repeat match goal with
    | |- context [Rgt_dec ?a ?b] =>
        destruct (Rgt_dec a b); try (exfalso; cbn in *; lra)
    | |- context [Rge_dec ?a ?b] =>
        destruct (Rge_dec a b); try (exfalso; cbn in *; lra)
    | |- context [Rlt_dec ?a ?b] =>
        destruct (Rlt_dec a b); try (exfalso; cbn in *; lra)
    | |- context [Rle_dec ?a ?b] =>
        destruct (Rle_dec a b); try (exfalso; cbn in *; lra)
    end.

(** The sorted copy puts the two regimes starting at 30 first, in the
    caller's order, although the caller listed the later one before them. *)
Example overlapScenario_sorted :
  sortedPeriods overlapScenario = [saver; spender; lateStarter].
Proof.
  unfold sortedPeriods, overlapScenario, Array_sort.
  cbn [CalculationInputs.periods fold_right sort_insert].
  settle_comparisons. cbn [sort_insert].
  settle_comparisons. cbn [sort_insert].
  settle_comparisons. reflexivity.
Qed.

(** At 36 all three regimes contain the age: the first supplied of the
    two starting at 30 is selected. *)
Example overlapScenario_age_36 :
  getPeriodForAge (sortedPeriods overlapScenario) 36 = Some saver.
Proof.
  rewrite overlapScenario_sorted. cbn [getPeriodForAge].
  settle_comparisons. reflexivity.
Qed.

(** At 45 the first regime has ended: the other regime starting at 30 is
    selected, ahead of the one starting at 35. *)
Example overlapScenario_age_45 :
  getPeriodForAge (sortedPeriods overlapScenario) 45 = Some spender.
Proof.
  rewrite overlapScenario_sorted. cbn [getPeriodForAge].
  settle_comparisons. cbn [andb]. settle_comparisons. reflexivity.
Qed.

(** At the horizon age no regime is active. *)
Example overlapScenario_age_60 :
  getPeriodForAge (sortedPeriods overlapScenario) 60 = None.
Proof.
  rewrite overlapScenario_sorted. cbn [getPeriodForAge].
  settle_comparisons. reflexivity.
Qed.

(** * Further properties of the code *)

(** Proves a [Forall] over a list written out, element by element. *)
Ltac for_each_regime tac :=
  repeat (apply Forall_cons; [cbn; tac|]); apply Forall_nil.

(** ** Snapshots by year *)

Lemma INR_12 : INR 12 = 12.
Proof. rewrite INR_IZR_INZ. reflexivity. Qed.

Lemma INR_months k : INR (12 * k) / 12 = INR k.
Proof. rewrite mult_INR, INR_12. field. Qed.

Lemma div_12_succ n :
  ((S n mod 12 = 0 -> S n / 12 = S (n / 12) /\ S n = 12 * S (n / 12))
   /\ (S n mod 12 <> 0 -> S n / 12 = n / 12))%nat.
Proof.
  pose proof (Nat.div_mod_eq (S n) 12) as H1.
  pose proof (Nat.div_mod_eq n 12) as H2.
  pose proof (Nat.mod_upper_bound (S n) 12) as H3.
  pose proof (Nat.mod_upper_bound n 12) as H4.
  generalize dependent (S n / 12)%nat. generalize dependent (n / 12)%nat.
  generalize dependent (S n mod 12)%nat. generalize dependent (n mod 12)%nat.
  intros. lia.
Qed.

(** The months that complete a year are the multiples of 12. *)
Lemma year_end_months n :
  filter (fun m => (m mod 12 =? 0)%nat) (seq 1 n)
  = map (fun k => (12 * k)%nat) (seq 1 (n / 12)).
Proof.
  induction n as [|n IH]; [reflexivity|].
  rewrite seq_S, filter_app, IH. cbn [filter Nat.add].
  destruct (S n mod 12 =? 0)%nat eqn:E.
  - apply Nat.eqb_eq in E.
    destruct (proj1 (div_12_succ n) E) as [-> E'].
    rewrite seq_S, map_app. cbn [map Nat.add]. now rewrite <- E'.
  - apply Nat.eqb_neq in E.
    rewrite (proj2 (div_12_succ n) E).
    now rewrite app_nil_r.
Qed.

(** The returned array, year by year. *)
Lemma project_by_year {rnd : Rounding} inputs :
  Spec.project inputs
  = map (snapshotOfYear inputs) (seq 0 (S (monthCount inputs / 12))).
Proof.
  unfold Spec.project. rewrite yearEnds_monthCount, year_end_months.
  cbn [seq map]. f_equal.
  rewrite map_map, <- !seq_shift, !map_map. reflexivity.
Qed.

Lemma calculateGrowth_by_year {rnd : Rounding} inputs :
  CalculationInputs.periods inputs <> [] ->
  calculateGrowth inputs
  = Return (map (snapshotOfYear inputs) (seq 0 (S (monthCount inputs / 12)))).
Proof.
  intros Hne. rewrite calculateGrowth_project by assumption.
  now rewrite project_by_year.
Qed.

(** The fields of the snapshot of year [k], read off the state after
    [12 * k] months. *)
Lemma snapshotOfYear_age {rnd : Rounding} inputs k :
  YearlyBalance.age (snapshotOfYear inputs k)
  = ageOfYear (Spec.start inputs) k.
Proof.
  destruct k as [|k]; [reflexivity|].
  unfold snapshotOfYear, Spec.snapshot, ageOfYear. cbn [YearlyBalance.age].
  now rewrite INR_months.
Qed.

Lemma snapshotOfYear_balance {rnd : Rounding} inputs k :
  YearlyBalance.balance (snapshotOfYear inputs k)
  = Spec.bal (Spec.stateAt inputs (12 * k)).
Proof. destruct k; reflexivity. Qed.

Lemma snapshotOfYear_contributions {rnd : Rounding} inputs k :
  YearlyBalance.contributions (snapshotOfYear inputs k)
  = Spec.contrib (Spec.stateAt inputs (12 * k)).
Proof. destruct k; reflexivity. Qed.

Lemma snapshotOfYear_growth {rnd : Rounding} inputs k :
  YearlyBalance.growth (snapshotOfYear inputs k)
  = Spec.bal (Spec.stateAt inputs (12 * k))
    - Spec.contrib (Spec.stateAt inputs (12 * k)).
Proof. destruct k; [cbn; lra | reflexivity]. Qed.

Lemma snapshotOfYear_taxPaid {rnd : Rounding} inputs k :
  YearlyBalance.taxPaid (snapshotOfYear inputs k)
  = Spec.tax (Spec.stateAt inputs (12 * k)).
Proof. destruct k; reflexivity. Qed.

Lemma snapshotOfYear_realBalance {rnd : Rounding} inputs k :
  YearlyBalance.realBalance (snapshotOfYear inputs k)
  = Spec.bal (Spec.stateAt inputs (12 * k))
    / Math_pow (1 + inflationRate inputs / 100) (INR k).
Proof.
  destruct k as [|k].
  - change (12 * 0)%nat with 0%nat.
    cbn [snapshotOfYear Spec.firstSnapshot YearlyBalance.realBalance
         Spec.stateAt INR].
    unfold Math_pow, Rpower. rewrite Rmult_0_l, exp_0. field.
  - unfold snapshotOfYear, Spec.snapshot. cbn [YearlyBalance.realBalance].
    now rewrite INR_months.
Qed.

Lemma snapshotOfYear_withdrawalRate {rnd : Rounding} inputs k :
  YearlyBalance.withdrawalRate (snapshotOfYear inputs k)
  = Spec.withdrawalRate inputs (ageOfYear (Spec.start inputs) k)
      (Spec.stateAt inputs (12 * k)).
Proof.
  destruct k as [|k]; [reflexivity|].
  unfold snapshotOfYear, Spec.snapshot, ageOfYear.
  cbn [YearlyBalance.withdrawalRate]. now rewrite INR_months.
Qed.

(** ** Every year gets its snapshot *)

Lemma snapshots_Forall {rnd : Rounding} inputs (P : YearlyBalance.t -> Prop) :
  CalculationInputs.periods inputs <> [] ->
  (forall k, (k <= monthCount inputs / 12)%nat ->
             P (snapshotOfYear inputs k)) ->
  exists snapshots,
    calculateGrowth inputs = Return snapshots /\ Forall P snapshots.
Proof.
  intros Hne H. eexists. split; [now apply calculateGrowth_by_year|].
  rewrite Forall_map, Forall_forall. intros k Hk.
  apply in_seq in Hk. apply H. lia.
Qed.

(** The number of whole years in the number of months the engine
    computes. *)
Lemma whole_years {rnd : Rounding} inputs years :
  INR (12 * years) <= months inputs < INR (12 * years) + 12 ->
  (monthCount inputs / 12 = years)%nat.
Proof.
  intros [Hlo Hhi].
  assert (12 * years <= monthCount inputs)%nat as H1.
  { destruct years as [|y]; [lia|].
    now apply loop_test_monthCount; [lia|]. }
  assert (~ (12 * years + 12 <= monthCount inputs)%nat) as H2.
  { rewrite <- loop_test_monthCount by lia.
    rewrite plus_INR, INR_12. lra. }
  symmetry. apply (Nat.div_unique _ 12 years (monthCount inputs - 12 * years));
    lia.
Qed.

(** X1. One snapshot per whole year of the computed span: when the number
    of months the engine computes, [months] (the rounded
    [(endAge - startAge) * 12]), holds [years] whole years, the returned
    array has [years + 1] entries; the first has the least start age as
    its age, the entry of year [k] the rounded sum of the least start age
    and [k]. *)
Theorem one_snapshot_per_whole_year {rnd : Rounding} inputs years :
  CalculationInputs.periods inputs <> [] ->
  INR (12 * years) <= months inputs < INR (12 * years) + 12 ->
  exists snapshots,
    calculateGrowth inputs = Return snapshots
    /\ List.length snapshots = S years
    /\ map YearlyBalance.age snapshots
       = Spec.minStartAge (CalculationInputs.periods inputs)
         :: map (fun k => fl (Spec.minStartAge
                                (CalculationInputs.periods inputs) + INR k))
                (seq 1 years).
Proof.
  intros Hne Hspan. eexists.
  split; [now apply calculateGrowth_by_year|].
  rewrite (whole_years inputs years Hspan).
  split; [now rewrite length_map, length_seq|].
  rewrite map_map. cbn [seq map]. f_equal.
  rewrite <- seq_shift, !map_map. apply map_ext. intros k.
  now rewrite snapshotOfYear_age.
Qed.

Lemma one_snapshot_per_whole_year_witness :
  exists snapshots,
    calculateGrowth (rnd := unrounded) compoundScenario = Return snapshots
    /\ List.length snapshots = 2%nat
    /\ map YearlyBalance.age snapshots = [30; 30 + INR 1].
Proof.
  apply (one_snapshot_per_whole_year (rnd := unrounded) compoundScenario 1).
  - discriminate.
  - unfold months, totalYears, endAge, startAge. cbn. lra.
Defined.

Lemma snapshots_by_index {rnd : Rounding} inputs :
  CalculationInputs.periods inputs <> [] ->
  exists snapshots,
    calculateGrowth inputs = Return snapshots
    /\ forall k s, nth_error snapshots k = Some s ->
                   s = snapshotOfYear inputs k.
Proof.
  intros Hne. eexists. split; [now apply calculateGrowth_by_year|].
  intros k s. rewrite nth_error_map, nth_error_seq.
  destruct (k <? S (monthCount inputs / 12))%nat; cbn; congruence.
Qed.

(** ** Tax switched off *)

Lemma stateAt_tax_disabled {rnd : Rounding} inputs m :
  Spec.taxEnabled inputs = false -> Spec.tax (Spec.stateAt inputs m) = 0.
Proof.
  intros Hoff. induction m as [|m IH]; [reflexivity|].
  cbn [Spec.stateAt]. unfold Spec.step, Spec.yearEndTax. rewrite Hoff.
  assert (Spec.tax (Spec.flows inputs (S m) (Spec.stateAt inputs m)) = 0)
    as H.
  { unfold Spec.flows. destruct (Spec.activeRegime _ _); exact IH. }
  destruct (S m mod 12 =? 0)%nat; exact H.
Qed.

(** X2. Without an enabled tax policy ([iskTax] absent, or present with
    [enabled] false) every snapshot reports a cumulative tax of 0. *)
Theorem no_tax_paid_when_disabled {rnd : Rounding} inputs :
  CalculationInputs.periods inputs <> [] ->
  iskEnabled inputs = false ->
  exists snapshots,
    calculateGrowth inputs = Return snapshots
    /\ Forall (fun s => YearlyBalance.taxPaid s = 0) snapshots.
Proof.
  intros Hne Hoff. apply snapshots_Forall; [assumption|].
  intros k _. rewrite snapshotOfYear_taxPaid.
  now apply stateAt_tax_disabled.
Qed.

Lemma no_tax_paid_when_disabled_witness :
  exists snapshots,
    calculateGrowth (rnd := unrounded) compoundScenario = Return snapshots
    /\ Forall (fun s => YearlyBalance.taxPaid s = 0) snapshots.
Proof.
  apply no_tax_paid_when_disabled.
  - discriminate.
  - reflexivity.
Defined.

(** ** Contributions *)

Lemma flows_contrib {rnd : Rounding} inputs month s :
  Spec.contrib (Spec.flows inputs month s)
  = Spec.contrib s
    + scheduledContribution (CalculationInputs.periods inputs) month.
Proof.
  unfold Spec.flows, scheduledContribution, Spec.start.
  destruct (Spec.activeRegime _ _); cbn [Spec.contrib]; lra.
Qed.

Lemma yearEndTax_contrib inputs s :
  Spec.contrib (Spec.yearEndTax inputs s) = Spec.contrib s.
Proof. unfold Spec.yearEndTax. destruct (Spec.taxEnabled inputs); reflexivity. Qed.

Lemma stateAt_contrib {rnd : Rounding} inputs m :
  Spec.contrib (Spec.stateAt inputs m)
  = CalculationInputs.initialAmount inputs
    + contributionsThrough (CalculationInputs.periods inputs) m.
Proof.
  induction m as [|m IH].
  - cbn. lra.
  - cbn [Spec.stateAt contributionsThrough]. unfold Spec.step.
    destruct (S m mod 12 =? 0)%nat;
      rewrite ?yearEndTax_contrib, flows_contrib, IH; lra.
Qed.

(** X3. The [contributions] of the snapshot of year [k] is the initial
    amount plus the sum, over the [12 * k] months elapsed, of the
    [monthlyContribution] of the regime active at the age the engine
    computes for the start of each month (the rounded
    [startAge + (month - 1) / 12]): returns, inflation, spending and tax
    never enter it. *)
Theorem contributions_are_the_scheduled_sum {rnd : Rounding} inputs :
  CalculationInputs.periods inputs <> [] ->
  exists snapshots,
    calculateGrowth inputs = Return snapshots
    /\ forall k s,
         nth_error snapshots k = Some s ->
         YearlyBalance.contributions s
         = CalculationInputs.initialAmount inputs
           + contributionsThrough (CalculationInputs.periods inputs) (12 * k).
Proof.
  intros Hne.
  destruct (snapshots_by_index inputs Hne) as (snapshots & E & H).
  exists snapshots. split; [exact E|].
  intros k s Hk. rewrite (H k s Hk), snapshotOfYear_contributions.
  apply stateAt_contrib.
Qed.

Lemma contributions_are_the_scheduled_sum_witness :
  exists snapshots,
    calculateGrowth (rnd := unrounded) overlapScenario = Return snapshots
    /\ forall k s,
         nth_error snapshots k = Some s ->
         YearlyBalance.contributions s
         = 10000
           + contributionsThrough (rnd := unrounded)
               [lateStarter; saver; spender] (12 * k).
Proof.
  apply (contributions_are_the_scheduled_sum overlapScenario). discriminate.
Defined.

Lemma scheduledContribution_nonneg {rnd : Rounding} periods month :
  Forall (fun p => 0 <= Period.monthlyContribution p) periods ->
  0 <= scheduledContribution periods month.
Proof.
  intros Hall. unfold scheduledContribution.
  destruct (Spec.activeRegime _ _) as [r|] eqn:E; [|lra].
  rewrite <- getPeriodForAge_sorted in E.
  apply getPeriodForAge_Some in E. destruct E as [Hin _].
  apply (Permutation_in _ (Permutation_sym (Array_sort_perm periods))) in Hin.
  rewrite Forall_forall in Hall. now apply Hall.
Qed.

Lemma contributionsThrough_monotone {rnd : Rounding} periods a b :
  Forall (fun p => 0 <= Period.monthlyContribution p) periods ->
  (a <= b)%nat ->
  contributionsThrough periods a <= contributionsThrough periods b.
Proof.
  intros Hall Hle. induction Hle as [|b Hle IH]; [lra|].
  cbn [contributionsThrough].
  pose proof (scheduledContribution_nonneg periods (S b) Hall). lra.
Qed.

(** X4. When no regime has a negative [monthlyContribution], the
    [contributions] column never decreases from one snapshot to the next
    (and so never falls below the initial amount). *)
Theorem contributions_never_decrease {rnd : Rounding} inputs :
  CalculationInputs.periods inputs <> [] ->
  Forall (fun p => 0 <= Period.monthlyContribution p)
         (CalculationInputs.periods inputs) ->
  exists snapshots,
    calculateGrowth inputs = Return snapshots
    /\ StronglySorted Rle (map YearlyBalance.contributions snapshots)
    /\ Forall (fun s => CalculationInputs.initialAmount inputs
                        <= YearlyBalance.contributions s) snapshots.
Proof.
  intros Hne Hall. eexists.
  split; [now apply calculateGrowth_by_year|]. split.
  - rewrite map_map.
    apply (map_sorted _ (monthCount inputs / 12)).
    + intros a b Hab.
      rewrite !snapshotOfYear_contributions, !stateAt_contrib.
      apply Rplus_le_compat_l, contributionsThrough_monotone; [assumption|lia].
    + rewrite Forall_forall. intros k Hk. apply in_seq in Hk. lia.
    + apply seq_sorted.
  - rewrite Forall_map, Forall_forall. intros k _.
    rewrite snapshotOfYear_contributions, stateAt_contrib.
    pose proof (contributionsThrough_monotone
                  (CalculationInputs.periods inputs) 0 (12 * k) Hall) as H.
    cbn [contributionsThrough] in H. specialize (H ltac:(lia)). lra.
Qed.

Lemma contributions_never_decrease_witness :
  exists snapshots,
    calculateGrowth (rnd := unrounded) overlapScenario = Return snapshots
    /\ StronglySorted Rle (map YearlyBalance.contributions snapshots)
    /\ Forall (fun s => 10000 <= YearlyBalance.contributions s) snapshots.
Proof.
  apply (contributions_never_decrease overlapScenario).
  - discriminate.
  - for_each_regime lra.
Defined.

(** ** Withdrawal rate *)

Lemma activeRegime_In l age r : Spec.activeRegime l age = Some r -> In r l.
Proof.
  intros E. rewrite <- getPeriodForAge_sorted in E.
  apply getPeriodForAge_Some in E. destruct E as [Hin _].
  now apply (Permutation_in _ (Permutation_sym (Array_sort_perm l))) in Hin.
Qed.

Lemma Math_pow_pos x y : 0 < Math_pow x y.
Proof. unfold Math_pow, Rpower. apply exp_pos. Qed.

Lemma stateAt_infl_pos {rnd : Rounding} inputs m :
  0 < Spec.infl (Spec.stateAt inputs m).
Proof.
  induction m as [|m IH]; [cbn; lra|].
  cbn [Spec.stateAt]. unfold Spec.step.
  assert (0 < Spec.infl (Spec.flows inputs (S m) (Spec.stateAt inputs m)))
    as H.
  { unfold Spec.flows.
    destruct (Spec.activeRegime _ _); cbn [Spec.infl];
      apply Rmult_lt_0_compat; try exact IH; apply Math_pow_pos. }
  destruct (S m mod 12 =? 0)%nat; [|exact H].
  unfold Spec.yearEndTax. destruct (Spec.taxEnabled inputs); exact H.
Qed.

(** X5. The withdrawal rate of a snapshot is 0 when its balance is not
    positive and when no regime contains its age; and with an inflation
    rate above -100 and no negative [monthlySpending] it is never
    negative. *)
Theorem withdrawal_rate_is_never_negative {rnd : Rounding} inputs :
  CalculationInputs.periods inputs <> [] ->
  -100 < inflationRate inputs ->
  Forall (fun p => 0 <= Period.monthlySpending p)
         (CalculationInputs.periods inputs) ->
  exists snapshots,
    calculateGrowth inputs = Return snapshots
    /\ Forall (fun s =>
         0 <= YearlyBalance.withdrawalRate s
         /\ (YearlyBalance.balance s <= 0 -> YearlyBalance.withdrawalRate s = 0)
         /\ (Forall (fun p => ~ contains p (YearlyBalance.age s))
                    (CalculationInputs.periods inputs) ->
             YearlyBalance.withdrawalRate s = 0))
       snapshots.
Proof.
  intros Hne _ Hall. apply snapshots_Forall; [assumption|]. intros k _.
  rewrite snapshotOfYear_withdrawalRate, snapshotOfYear_balance,
    snapshotOfYear_age.
  unfold Spec.withdrawalRate.
  set (st := Spec.stateAt inputs (12 * k)).
  pose proof (stateAt_infl_pos inputs (12 * k)) as Hinfl. fold st in Hinfl.
  destruct (Spec.activeRegime _ _) as [r|] eqn:E.
  - assert (0 <= Period.monthlySpending r) as Hr.
    { rewrite Forall_forall in Hall. apply Hall.
      now apply activeRegime_In in E. }
    destruct (Rlt_dec 0 (Spec.bal st)) as [Hpos|Hneg].
    + repeat split.
      * unfold Rdiv.
        assert (0 < / Spec.bal st) by now apply Rinv_0_lt_compat.
        repeat apply Rmult_le_pos; lra.
      * intros Hb. lra.
      * intros Hnone. apply activeRegime_None in Hnone. congruence.
    + repeat split; intros; lra.
  - repeat split; intros; lra.
Qed.

Lemma withdrawal_rate_is_never_negative_witness :
  exists snapshots,
    calculateGrowth (rnd := unrounded) overlapScenario = Return snapshots
    /\ Forall (fun s =>
         0 <= YearlyBalance.withdrawalRate s
         /\ (YearlyBalance.balance s <= 0 -> YearlyBalance.withdrawalRate s = 0)
         /\ (Forall (fun p => ~ contains p (YearlyBalance.age s))
                    [lateStarter; saver; spender] ->
             YearlyBalance.withdrawalRate s = 0))
       snapshots.
Proof.
  apply (withdrawal_rate_is_never_negative overlapScenario).
  - discriminate.
  - unfold inflationRate. cbn. lra.
  - for_each_regime lra.
Defined.

(** ** Growth without returns *)

Lemma flows_zero_return {rnd : Rounding} inputs month s :
  CalculationInputs.annualReturn inputs = 0 ->
  Forall (fun p => Period.annualReturn p = None \/ Period.annualReturn p = Some 0)
         (CalculationInputs.periods inputs) ->
  Forall (fun p => 0 <= Period.monthlySpending p)
         (CalculationInputs.periods inputs) ->
  let s' := Spec.flows inputs month s in
  0 < Spec.infl s ->
  Spec.bal s' - Spec.contrib s' <= Spec.bal s - Spec.contrib s
  /\ (Forall (fun p => Period.monthlySpending p = 0)
             (CalculationInputs.periods inputs) ->
      Spec.bal s' - Spec.contrib s' = Spec.bal s - Spec.contrib s).
Proof.
  intros Hglobal Hover Hspend s' Hinfl. subst s'. unfold Spec.flows.
  rewrite Hglobal.
  destruct (Spec.activeRegime _ _) as [r|] eqn:E; cbn [Spec.bal Spec.contrib].
  - apply activeRegime_In in E.
    rewrite Forall_forall in Hover, Hspend.
    specialize (Hover r E). specialize (Hspend r E).
    pose proof (Math_pow_pos
      (1 + match CalculationInputs.inflationRate inputs with
           | Some i => i | None => 0 end / 100) (1 / 12)) as Hpow.
    set (f := Math_pow _ _) in *.
    assert (0 <= Period.monthlySpending r * (Spec.infl s * f)) as Hsp
      by (apply Rmult_le_pos; [assumption|]; apply Rmult_le_pos; lra).
    split.
    + destruct Hover as [-> | ->]; lra.
    + intros Hzero. rewrite Forall_forall in Hzero.
      rewrite (Hzero r E). destruct Hover as [-> | ->]; lra.
  - split; [|intros _]; lra.
Qed.

Lemma stateAt_zero_return {rnd : Rounding} inputs m :
  CalculationInputs.annualReturn inputs = 0 ->
  Forall (fun p => Period.annualReturn p = None \/ Period.annualReturn p = Some 0)
         (CalculationInputs.periods inputs) ->
  Forall (fun p => 0 <= Period.monthlySpending p)
         (CalculationInputs.periods inputs) ->
  Spec.taxEnabled inputs = false ->
  Spec.bal (Spec.stateAt inputs m) - Spec.contrib (Spec.stateAt inputs m) <= 0
  /\ (Forall (fun p => Period.monthlySpending p = 0)
             (CalculationInputs.periods inputs) ->
      Spec.bal (Spec.stateAt inputs m) - Spec.contrib (Spec.stateAt inputs m)
      = 0).
Proof.
  intros Hglobal Hover Hspend Hoff. induction m as [|m [IH1 IH2]].
  - cbn. split; [|intros _]; lra.
  - cbn [Spec.stateAt]. unfold Spec.step, Spec.yearEndTax. rewrite Hoff.
    destruct (flows_zero_return inputs (S m) (Spec.stateAt inputs m)
                Hglobal Hover Hspend (stateAt_infl_pos inputs m)) as [F1 F2].
    destruct (S m mod 12 =? 0)%nat.
    + split; [lra|]. intros Hz. rewrite (F2 Hz). now apply IH2.
    + split; [lra|]. intros Hz. rewrite (F2 Hz). now apply IH2.
Qed.

(** X6. With a return of 0 (globally and in every override), the tax
    off, an inflation rate above -100 and no negative spending, money is
    only moved: the growth of a snapshot is never positive, and it is
    exactly 0, the balance being the contributions, when no regime
    spends. *)
Theorem zero_return_creates_no_growth {rnd : Rounding} inputs :
  CalculationInputs.periods inputs <> [] ->
  CalculationInputs.annualReturn inputs = 0 ->
  Forall (fun p => Period.annualReturn p = None \/ Period.annualReturn p = Some 0)
         (CalculationInputs.periods inputs) ->
  iskEnabled inputs = false ->
  -100 < inflationRate inputs ->
  Forall (fun p => 0 <= Period.monthlySpending p)
         (CalculationInputs.periods inputs) ->
  exists snapshots,
    calculateGrowth inputs = Return snapshots
    /\ Forall (fun s => YearlyBalance.growth s <= 0) snapshots
    /\ (Forall (fun p => Period.monthlySpending p = 0)
               (CalculationInputs.periods inputs) ->
        Forall (fun s => YearlyBalance.growth s = 0
                         /\ YearlyBalance.balance s
                            = YearlyBalance.contributions s) snapshots).
Proof.
  intros Hne Hglobal Hover Hoff _ Hspend. eexists.
  split; [now apply calculateGrowth_by_year|].
  split; [|intros Hz]; rewrite Forall_map, Forall_forall; intros k _;
    rewrite ?snapshotOfYear_growth, ?snapshotOfYear_balance,
      ?snapshotOfYear_contributions;
    destruct (stateAt_zero_return inputs (12 * k) Hglobal Hover Hspend Hoff)
      as [H1 H2].
  - exact H1.
  - specialize (H2 Hz). split; lra.
Qed.

Lemma zero_return_creates_no_growth_witness :
  exists snapshots,
    calculateGrowth (rnd := unrounded) (inflationScenario 1000)
    = Return snapshots
    /\ Forall (fun s => YearlyBalance.growth s <= 0) snapshots
    /\ (Forall (fun p => Period.monthlySpending p = 0) [idleRegime 31] ->
        Forall (fun s => YearlyBalance.growth s = 0
                         /\ YearlyBalance.balance s
                            = YearlyBalance.contributions s) snapshots).
Proof.
  apply (zero_return_creates_no_growth (inflationScenario 1000)).
  - discriminate.
  - reflexivity.
  - for_each_regime ltac:(now left).
  - reflexivity.
  - unfold inflationRate. cbn. lra.
  - for_each_regime lra.
Defined.

(** ** Compounding alone *)

Lemma stateAt_compounding {rnd : Rounding} inputs m :
  Forall (fun p => Period.monthlyContribution p = 0
                   /\ Period.monthlySpending p = 0
                   /\ Period.annualReturn p = None)
         (CalculationInputs.periods inputs) ->
  Spec.taxEnabled inputs = false ->
  Spec.bal (Spec.stateAt inputs m)
  = CalculationInputs.initialAmount inputs
    * (1 + CalculationInputs.annualReturn inputs / 100 / 12) ^ m.
Proof.
  intros Hidle Hoff. induction m as [|m IH].
  - cbn. lra.
  - cbn [Spec.stateAt pow]. unfold Spec.step, Spec.yearEndTax. rewrite Hoff.
    assert (Spec.bal (Spec.flows inputs (S m) (Spec.stateAt inputs m))
            = Spec.bal (Spec.stateAt inputs m)
              * (1 + CalculationInputs.annualReturn inputs / 100 / 12)) as F.
    { unfold Spec.flows.
      destruct (Spec.activeRegime _ _) as [r|] eqn:E; cbn [Spec.bal];
        [|reflexivity].
      apply activeRegime_In in E. rewrite Forall_forall in Hidle.
      destruct (Hidle r E) as (-> & -> & ->). ring. }
    destruct (S m mod 12 =? 0)%nat; rewrite F, IH; ring.
Qed.

(** X7. When no regime contributes, spends or overrides the return and
    the tax is off, the balance of the snapshot of year [k] is the initial
    amount compounded monthly over [12 * k] months,
    [initialAmount * (1 + annualReturn / 100 / 12) ^ (12 * k)]. *)
Theorem idle_balance_compounds_monthly {rnd : Rounding} inputs :
  CalculationInputs.periods inputs <> [] ->
  Forall (fun p => Period.monthlyContribution p = 0
                   /\ Period.monthlySpending p = 0
                   /\ Period.annualReturn p = None)
         (CalculationInputs.periods inputs) ->
  iskEnabled inputs = false ->
  exists snapshots,
    calculateGrowth inputs = Return snapshots
    /\ forall k s,
         nth_error snapshots k = Some s ->
         YearlyBalance.balance s
         = CalculationInputs.initialAmount inputs
           * (1 + CalculationInputs.annualReturn inputs / 100 / 12) ^ (12 * k).
Proof.
  intros Hne Hidle Hoff.
  destruct (snapshots_by_index inputs Hne) as (snapshots & E & H).
  exists snapshots. split; [exact E|].
  intros k s Hk. rewrite (H k s Hk), snapshotOfYear_balance.
  now apply stateAt_compounding.
Qed.

Lemma idle_balance_compounds_monthly_witness :
  exists snapshots,
    calculateGrowth (rnd := unrounded) compoundScenario = Return snapshots
    /\ forall k s,
         nth_error snapshots k = Some s ->
         YearlyBalance.balance s = 10000 * (1 + 12 / 100 / 12) ^ (12 * k).
Proof.
  apply (idle_balance_compounds_monthly compoundScenario).
  - discriminate.
  - for_each_regime ltac:(repeat split).
  - reflexivity.
Defined.

(** ** Real balance *)

(** X8. For an inflation rate above -100, the real balance of the
    snapshot of year [k] is the balance deflated by [k] years of
    inflation: [realBalance * (1 + inflationRate / 100) ^ k = balance]. *)
Theorem real_balance_is_deflated_by_whole_years {rnd : Rounding} inputs :
  CalculationInputs.periods inputs <> [] ->
  -100 < inflationRate inputs ->
  exists snapshots,
    calculateGrowth inputs = Return snapshots
    /\ forall k s,
         nth_error snapshots k = Some s ->
         YearlyBalance.realBalance s * (1 + inflationRate inputs / 100) ^ k
         = YearlyBalance.balance s.
Proof.
  intros Hne Hinfl.
  destruct (snapshots_by_index inputs Hne) as (snapshots & E & H).
  exists snapshots. split; [exact E|].
  intros k s Hk.
  rewrite (H k s Hk), snapshotOfYear_realBalance, snapshotOfYear_balance.
  unfold Math_pow.
  assert (0 < 1 + inflationRate inputs / 100) as Hbase by lra.
  rewrite Rpower_pow by assumption.
  field. apply pow_nonzero. lra.
Qed.

Lemma real_balance_is_deflated_by_whole_years_witness :
  exists snapshots,
    calculateGrowth (rnd := unrounded) (inflationScenario 1000)
    = Return snapshots
    /\ forall k s,
         nth_error snapshots k = Some s ->
         YearlyBalance.realBalance s
         * (1 + inflationRate (inflationScenario 1000) / 100) ^ k
         = YearlyBalance.balance s.
Proof.
  apply real_balance_is_deflated_by_whole_years.
  - discriminate.
  - unfold inflationRate. cbn. lra.
Defined.

(** ** Order of the supplied regimes *)

(** The trajectory depends on the regime list only through the least
    start age and the regime resolution. *)
Lemma project_ext {rnd : Rounding} initial l l' ret horizon infl tax :
  Spec.minStartAge l = Spec.minStartAge l' ->
  (forall age, Spec.activeRegime l age = Spec.activeRegime l' age) ->
  Spec.project (CalculationInputs.mk initial l ret horizon infl tax)
  = Spec.project (CalculationInputs.mk initial l' ret horizon infl tax).
Proof.
  intros Hmin Hact.
  set (i := CalculationInputs.mk initial l ret horizon infl tax).
  set (i' := CalculationInputs.mk initial l' ret horizon infl tax).
  assert (Spec.start i = Spec.start i') as Hstart by exact Hmin.
  assert (forall m s, Spec.flows i m s = Spec.flows i' m s) as Hflows.
  { intros m s. unfold Spec.flows. rewrite Hstart.
    cbn [i i' CalculationInputs.periods]. rewrite Hact. reflexivity. }
  assert (forall m, Spec.stateAt i m = Spec.stateAt i' m) as Hstate.
  { induction m as [|m IH]; [reflexivity|].
    cbn [Spec.stateAt]. unfold Spec.step. rewrite IH, Hflows. reflexivity. }
  assert (forall age s, Spec.withdrawalRate i age s
                        = Spec.withdrawalRate i' age s) as Hw.
  { intros age s. unfold Spec.withdrawalRate.
    cbn [i i' CalculationInputs.periods]. now rewrite Hact. }
  unfold Spec.project. f_equal.
  - unfold Spec.firstSnapshot. now rewrite Hstart, Hw.
  - assert (Spec.yearEnds i = Spec.yearEnds i') as ->
      by (unfold Spec.yearEnds, Spec.totalMonths; now rewrite Hstart).
    apply map_ext. intros m. unfold Spec.snapshot.
    now rewrite Hstate, Hstart, Hw.
Qed.

Lemma calculateGrowth_ext {rnd : Rounding} initial l l' ret horizon infl tax :
  (l = [] <-> l' = []) ->
  Spec.minStartAge l = Spec.minStartAge l' ->
  (forall age, Spec.activeRegime l age = Spec.activeRegime l' age) ->
  calculateGrowth (CalculationInputs.mk initial l ret horizon infl tax)
  = calculateGrowth (CalculationInputs.mk initial l' ret horizon infl tax).
Proof.
  intros Hnil Hmin Hact. destruct l as [|p l].
  - rewrite (proj1 Hnil eq_refl). reflexivity.
  - assert (l' <> []) as Hne'
      by (intros E; apply Hnil in E; discriminate).
    rewrite !calculateGrowth_project by (cbn; congruence).
    f_equal. now apply project_ext.
Qed.

Lemma activeRegime_least l age p :
  Spec.activeRegime l age = Some p ->
  In p l /\ contains p age
  /\ forall q, In q l -> contains q age ->
               Period.startAge p <= Period.startAge q.
Proof.
  intros E.
  destruct (activeRegime_position l age p E)
    as (l1 & l2 & -> & Hc & Hbefore & Hafter).
  split; [apply in_or_app; right; now left|]. split; [exact Hc|].
  intros q Hq Hcq. apply in_app_or in Hq. destruct Hq as [Hq|[<-|Hq]].
  - specialize (Hbefore q Hq Hcq). lra.
  - lra.
  - now apply Hafter.
Qed.

Lemma distinct_start_ages l p q :
  NoDup (map Period.startAge l) -> In p l -> In q l ->
  Period.startAge p = Period.startAge q -> p = q.
Proof.
  induction l as [|a l IH]; cbn [map]; [easy|].
  intros Hnd Hp Hq E. inversion Hnd as [|? ? Hnot Hnd']; subst.
  destruct Hp as [<-|Hp], Hq as [<-|Hq].
  - reflexivity.
  - exfalso. apply Hnot. rewrite E. now apply in_map.
  - exfalso. apply Hnot. rewrite <- E. now apply in_map.
  - now apply IH.
Qed.

Lemma activeRegime_perm l l' age :
  Permutation l l' -> NoDup (map Period.startAge l) ->
  Spec.activeRegime l age = Spec.activeRegime l' age.
Proof.
  intros P Hnd.
  destruct (Spec.activeRegime l age) as [p|] eqn:E,
           (Spec.activeRegime l' age) as [p'|] eqn:E'.
  - apply activeRegime_least in E. destruct E as (Hin & Hc & Hmin).
    apply activeRegime_least in E'. destruct E' as (Hin' & Hc' & Hmin').
    apply (Permutation_in _ (Permutation_sym P)) in Hin'.
    f_equal. apply (distinct_start_ages l); try assumption.
    apply Rle_antisym; [now apply Hmin|].
    apply Hmin'; [now apply (Permutation_in _ P)|assumption].
  - apply activeRegime_least in E. destruct E as (Hin & Hc & _).
    apply activeRegime_None in E'. rewrite Forall_forall in E'.
    exfalso. apply (E' p); [now apply (Permutation_in _ P)|assumption].
  - apply activeRegime_least in E'. destruct E' as (Hin' & Hc' & _).
    apply activeRegime_None in E. rewrite Forall_forall in E.
    exfalso. apply (E p');
      [now apply (Permutation_in _ (Permutation_sym P))|assumption].
  - reflexivity.
Qed.

Lemma minStartAge_perm l l' :
  Permutation l l' -> Spec.minStartAge l = Spec.minStartAge l'.
Proof.
  intros P. destruct l as [|a l].
  - apply Permutation_nil in P. now subst.
  - assert (l' <> []) as Hne'
      by (intros ->; apply Permutation_sym, Permutation_nil in P;
          discriminate).
    destruct (minStartAge_In (a :: l)) as (p & Hp & Ep); [discriminate|].
    destruct (minStartAge_In l' Hne') as (p' & Hp' & Ep').
    apply Rle_antisym.
    + rewrite Ep'. apply minStartAge_le.
      now apply (Permutation_in _ (Permutation_sym P)).
    + rewrite Ep. apply minStartAge_le. now apply (Permutation_in _ P).
Qed.

(** X9. When the regimes have pairwise distinct start ages, the order in
    which the caller lists them is irrelevant: any permutation of the list
    gives the same result. *)
Theorem regime_order_is_irrelevant_for_distinct_start_ages {rnd : Rounding}
    initial l l' ret horizon infl tax :
  Permutation l l' ->
  NoDup (map Period.startAge l) ->
  calculateGrowth (CalculationInputs.mk initial l ret horizon infl tax)
  = calculateGrowth (CalculationInputs.mk initial l' ret horizon infl tax).
Proof.
  intros P Hnd. apply calculateGrowth_ext.
  - split; intros ->.
    + now apply Permutation_nil in P.
    + now apply Permutation_sym, Permutation_nil in P.
  - now apply minStartAge_perm.
  - intros age. now apply activeRegime_perm.
Qed.

Lemma regime_order_is_irrelevant_for_distinct_start_ages_witness :
  calculateGrowth (rnd := unrounded)
    (CalculationInputs.mk 10000 [saver; lateStarter] 7 (Some 60) None None)
  = calculateGrowth (rnd := unrounded)
      (CalculationInputs.mk 10000 [lateStarter; saver] 7 (Some 60) None None).
Proof.
  apply regime_order_is_irrelevant_for_distinct_start_ages.
  - apply perm_swap.
  - repeat constructor; cbn; intros H; repeat destruct H as [H|H]; lra.
Defined.

(** ** The legacy adapter *)

Lemma legacy_minStartAge legacy :
  Spec.minStartAge (legacyPeriods legacy)
  = Rmin (LegacyCalculationInputs.startAge legacy)
         (LegacyCalculationInputs.retirementAge legacy).
Proof. reflexivity. Qed.

Lemma stateAt_no_inflation {rnd : Rounding} inputs m :
  inflationRate inputs = 0 ->
  forall s, s = Spec.snapshot inputs m ->
            YearlyBalance.realBalance s = YearlyBalance.balance s.
Proof.
  intros Hzero s ->. unfold Spec.snapshot.
  cbn [YearlyBalance.realBalance YearlyBalance.balance].
  change (match CalculationInputs.inflationRate inputs with
          | Some i => i | None => 0 end) with (inflationRate inputs).
  rewrite Hzero. replace (1 + 0 / 100) with 1 by lra.
  rewrite Math_pow_base_1. lra.
Qed.

(** X10. [calculateGrowthLegacy] never throws: it returns at least one
    snapshot, the first at the lesser of [startAge] and [retirementAge]
    with the initial amount as balance, and every snapshot has no tax
    paid and a real balance equal to its balance. *)
Theorem calculateGrowthLegacy_always_returns {rnd : Rounding} legacy :
  exists first rest,
    calculateGrowthLegacy legacy = Return (first :: rest)
    /\ YearlyBalance.age first
       = Rmin (LegacyCalculationInputs.startAge legacy)
              (LegacyCalculationInputs.retirementAge legacy)
    /\ YearlyBalance.balance first
       = LegacyCalculationInputs.initialAmount legacy
    /\ Forall (fun s => YearlyBalance.taxPaid s = 0
                        /\ YearlyBalance.realBalance s
                           = YearlyBalance.balance s)
              (first :: rest).
Proof.
  unfold calculateGrowthLegacy.
  rewrite calculateGrowth_project by discriminate.
  unfold Spec.project. do 2 eexists. split; [reflexivity|].
  split; [reflexivity|]. split; [reflexivity|].
  constructor; [split; reflexivity|].
  rewrite Forall_map, Forall_forall. intros m _. split.
  - unfold Spec.snapshot. cbn [YearlyBalance.taxPaid].
    now apply stateAt_tax_disabled.
  - now apply (stateAt_no_inflation (legacyInputs legacy) m).
Qed.

(** The scheduled contribution is that of the regime active at the age
    the engine computes. *)
Lemma scheduledContribution_currentAge {rnd : Rounding} inputs month :
  scheduledContribution (CalculationInputs.periods inputs) month
  = match Spec.activeRegime (CalculationInputs.periods inputs)
            (currentAge inputs month) with
    | Some r => Period.monthlyContribution r
    | None => 0
    end.
Proof.
  unfold scheduledContribution, currentAge. now rewrite startAge_min.
Qed.

(** The contribution scheduled by the legacy periods when the computed
    ages place the first [12 * working] months, and no later one, before
    retirement. *)
Lemma legacy_scheduledContribution {rnd : Rounding} legacy working month :
  LegacyCalculationInputs.startAge legacy
  <= currentAge (legacyInputs legacy) 1 ->
  ((1 <= working)%nat ->
   currentAge (legacyInputs legacy) (12 * working)
   < LegacyCalculationInputs.retirementAge legacy) ->
  LegacyCalculationInputs.retirementAge legacy
  <= currentAge (legacyInputs legacy) (12 * working + 1) ->
  (1 <= month)%nat ->
  scheduledContribution (legacyPeriods legacy) month
  = if (month <=? 12 * working)%nat
    then LegacyCalculationInputs.monthlyContribution legacy else 0.
Proof.
  intros Hfirst Hlast Hnext Hpos.
  change (legacyPeriods legacy)
    with (CalculationInputs.periods (legacyInputs legacy)).
  rewrite scheduledContribution_currentAge.
  set (age := currentAge (legacyInputs legacy) month).
  cbn [legacyInputs CalculationInputs.periods legacyPeriods
       Spec.activeRegime].
  unfold Spec.containsb. cbn [Period.startAge Period.endAge].
  destruct (Nat.leb_spec month (12 * working)) as [Hle|Hgt].
  - assert (LegacyCalculationInputs.startAge legacy <= age) as Hlo.
    { etransitivity; [exact Hfirst|].
      now apply currentAge_monotone. }
    assert (age < LegacyCalculationInputs.retirementAge legacy) as Hhi.
    { eapply Rle_lt_trans; [|apply Hlast; lia].
      now apply currentAge_monotone. }
    destruct (Rle_dec (LegacyCalculationInputs.startAge legacy) age)
      as [_|Hno]; [|contradiction].
    destruct (Rlt_dec age (LegacyCalculationInputs.retirementAge legacy))
      as [_|Hno]; [|contradiction].
    destruct (Rle_dec (LegacyCalculationInputs.retirementAge legacy) age)
      as [Hc|_]; [exfalso; lra | reflexivity].
  - assert (LegacyCalculationInputs.retirementAge legacy <= age) as Hlo.
    { etransitivity; [exact Hnext|].
      apply currentAge_monotone. lia. }
    destruct (Rlt_dec age (LegacyCalculationInputs.retirementAge legacy))
      as [Hc|_]; [exfalso; lra|].
    destruct (Rle_dec (LegacyCalculationInputs.startAge legacy) age),
      (Rle_dec (LegacyCalculationInputs.retirementAge legacy) age),
      (Rlt_dec age (nullish (LegacyCalculationInputs.endAge legacy) 100));
      reflexivity.
Qed.

Lemma legacy_contributionsThrough {rnd : Rounding} legacy working m :
  LegacyCalculationInputs.startAge legacy
  <= currentAge (legacyInputs legacy) 1 ->
  ((1 <= working)%nat ->
   currentAge (legacyInputs legacy) (12 * working)
   < LegacyCalculationInputs.retirementAge legacy) ->
  LegacyCalculationInputs.retirementAge legacy
  <= currentAge (legacyInputs legacy) (12 * working + 1) ->
  contributionsThrough (legacyPeriods legacy) m
  = INR (Nat.min m (12 * working))
    * LegacyCalculationInputs.monthlyContribution legacy.
Proof.
  intros Hfirst Hlast Hnext. induction m as [|m IH].
  - cbn. lra.
  - cbn [contributionsThrough].
    rewrite IH, (legacy_scheduledContribution legacy working)
      by (assumption || lia).
    destruct (S m <=? 12 * working)%nat eqn:E.
    + apply Nat.leb_le in E.
      rewrite !Nat.min_l by lia. rewrite S_INR. lra.
    + apply Nat.leb_nle in E.
      rewrite !Nat.min_r by lia. lra.
Qed.

(** When retirement comes [working] whole years after the start and the
    two ages are numbers of the format, months 1 and [12 * working + 1]
    are computed to start at the start age and at the retirement age,
    whatever the rounding. *)
Lemma legacy_boundary_ages {rnd : Rounding} legacy working :
  LegacyCalculationInputs.retirementAge legacy
  = LegacyCalculationInputs.startAge legacy + INR working ->
  fl (LegacyCalculationInputs.startAge legacy)
  = LegacyCalculationInputs.startAge legacy ->
  fl (LegacyCalculationInputs.retirementAge legacy)
  = LegacyCalculationInputs.retirementAge legacy ->
  (Z.of_nat working <= 2 ^ 53)%Z ->
  currentAge (legacyInputs legacy) 1
  = LegacyCalculationInputs.startAge legacy
  /\ currentAge (legacyInputs legacy) (12 * working + 1)
     = LegacyCalculationInputs.retirementAge legacy.
Proof.
  intros Hret Hs Hr Hw. unfold currentAge.
  rewrite startAge_min. unfold Spec.start.
  cbn [legacyInputs CalculationInputs.periods].
  rewrite legacy_minStartAge.
  assert (0 <= INR working) as Hpos by apply pos_INR.
  rewrite Rmin_left by lra.
  split.
  - cbn [INR]. replace ((1 - 1) / 12) with 0 by lra.
    now rewrite fl_0, Rplus_0_r.
  - replace ((INR (12 * working + 1) - 1) / 12) with (INR working)
      by (rewrite plus_INR, mult_INR, INR_12; cbn [INR]; lra).
    rewrite (fl_whole (Z.of_nat working) (INR working))
      by (apply INR_IZR_INZ || lia).
    now rewrite <- Hret.
Qed.

(** Without rounding the three ages are where the inputs put them when
    retirement comes [working] whole years after the start. *)
Lemma legacy_ages_unrounded legacy working :
  LegacyCalculationInputs.retirementAge legacy
  = LegacyCalculationInputs.startAge legacy + INR working ->
  LegacyCalculationInputs.startAge legacy
  <= currentAge (rnd := unrounded) (legacyInputs legacy) 1
  /\ ((1 <= working)%nat ->
      currentAge (rnd := unrounded) (legacyInputs legacy) (12 * working)
      < LegacyCalculationInputs.retirementAge legacy)
  /\ LegacyCalculationInputs.retirementAge legacy
     <= currentAge (rnd := unrounded) (legacyInputs legacy)
          (12 * working + 1).
Proof.
  intros Hret. unfold currentAge. cbn [fl unrounded].
  rewrite startAge_min. unfold Spec.start.
  cbn [legacyInputs CalculationInputs.periods].
  rewrite legacy_minStartAge, Hret.
  assert (0 <= INR working) as Hw by apply pos_INR.
  rewrite Rmin_left by lra.
  rewrite plus_INR, mult_INR, INR_12. cbn [INR].
  repeat split; intros; lra.
Qed.

(** X11. Legacy accumulation: when the ages the engine computes for the
    start of the months put month 1 at or after the start age, month
    [12 * working] before the retirement age and month [12 * working + 1]
    at or after it (as they are, without rounding, when retirement comes
    [working] whole years after the start age), the snapshot of year [k]
    has contributed the initial amount plus [12 * min k working] monthly
    contributions; contributions stop at retirement. *)
Theorem legacy_contributions_stop_at_retirement {rnd : Rounding}
    legacy working :
  LegacyCalculationInputs.startAge legacy
  <= currentAge (legacyInputs legacy) 1 ->
  ((1 <= working)%nat ->
   currentAge (legacyInputs legacy) (12 * working)
   < LegacyCalculationInputs.retirementAge legacy) ->
  LegacyCalculationInputs.retirementAge legacy
  <= currentAge (legacyInputs legacy) (12 * working + 1) ->
  exists snapshots,
    calculateGrowthLegacy legacy = Return snapshots
    /\ forall k s,
         nth_error snapshots k = Some s ->
         YearlyBalance.contributions s
         = LegacyCalculationInputs.initialAmount legacy
           + INR (12 * Nat.min k working)
             * LegacyCalculationInputs.monthlyContribution legacy.
Proof.
  intros Hfirst Hlast Hnext. unfold calculateGrowthLegacy.
  destruct (snapshots_by_index (legacyInputs legacy)) as (snapshots & E & H);
    [discriminate|].
  exists snapshots. split; [exact E|].
  intros k s Hk.
  rewrite (H k s Hk), snapshotOfYear_contributions, stateAt_contrib.
  cbn [legacyInputs CalculationInputs.initialAmount CalculationInputs.periods].
  rewrite (legacy_contributionsThrough legacy working) by assumption.
  now rewrite Nat.mul_min_distr_l.
Qed.

Lemma legacy_contributions_stop_at_retirement_witness :
  exists snapshots,
    calculateGrowthLegacy (rnd := unrounded) legacySaver = Return snapshots
    /\ forall k s,
         nth_error snapshots k = Some s ->
         YearlyBalance.contributions s
         = 10000 + INR (12 * Nat.min k 1) * 500.
Proof.
  assert (LegacyCalculationInputs.retirementAge legacySaver
          = LegacyCalculationInputs.startAge legacySaver + INR 1) as Hret
    by (cbn; lra).
  destruct (legacy_ages_unrounded legacySaver 1 Hret)
    as (Hfirst & Hlast & Hnext).
  exact (legacy_contributions_stop_at_retirement (rnd := unrounded)
           legacySaver 1 Hfirst Hlast Hnext).
Defined.

(** X12. Legacy with retirement at or before the start age: the
    accumulation period is empty, so nothing is ever contributed, whatever
    [monthlyContribution] is, and the projection starts at
    [retirementAge]. *)
Theorem legacy_retired_from_the_start_contributes_nothing {rnd : Rounding}
    legacy :
  LegacyCalculationInputs.retirementAge legacy
  <= LegacyCalculationInputs.startAge legacy ->
  exists first rest,
    calculateGrowthLegacy legacy = Return (first :: rest)
    /\ YearlyBalance.age first = LegacyCalculationInputs.retirementAge legacy
    /\ Forall (fun s => YearlyBalance.contributions s
                        = LegacyCalculationInputs.initialAmount legacy)
              (first :: rest).
Proof.
  intros Hret. unfold calculateGrowthLegacy.
  rewrite calculateGrowth_project by discriminate.
  unfold Spec.project. do 2 eexists. split; [reflexivity|].
  split.
  { cbn [Spec.firstSnapshot YearlyBalance.age].
    unfold Spec.start. cbn [legacyInputs CalculationInputs.periods].
    rewrite legacy_minStartAge. now apply Rmin_right. }
  assert (forall m, contributionsThrough (legacyPeriods legacy) m = 0) as Hz.
  { induction m as [|m IH]; [reflexivity|].
    cbn [contributionsThrough]. rewrite IH.
    unfold scheduledContribution.
    destruct (Spec.activeRegime _ _) as [r|] eqn:E; [|lra].
    apply activeRegime_least in E. destruct E as (Hin & Hc & _).
    destruct Hin as [<-|[<-|[]]]; cbn [Period.monthlyContribution].
    - unfold contains in Hc. cbn [Period.startAge Period.endAge] in Hc. lra.
    - lra. }
  constructor; [reflexivity|].
  rewrite Forall_map, Forall_forall. intros m _.
  unfold Spec.snapshot. cbn [YearlyBalance.contributions].
  rewrite stateAt_contrib.
  cbn [legacyInputs CalculationInputs.initialAmount CalculationInputs.periods].
  rewrite Hz. lra.
Qed.

Lemma legacy_retired_from_the_start_contributes_nothing_witness :
  exists first rest,
    calculateGrowthLegacy (rnd := unrounded) legacyRetired
    = Return (first :: rest)
    /\ YearlyBalance.age first = 65
    /\ Forall (fun s => YearlyBalance.contributions s = 100000)
              (first :: rest).
Proof.
  apply (legacy_retired_from_the_start_contributes_nothing legacyRetired).
  cbn. lra.
Defined.

(** ** The form: stitching the periods *)

Lemma periodsWithEndAges_from whole : forall rest before,
  whole = before ++ rest ->
  map (fun entry =>
         if (fst entry =? List.length whole - 1)%nat
         then App.withEndAge (snd entry) 100
         else App.withEndAge (snd entry)
                (Period.startAge (nth (fst entry + 1) whole (snd entry))))
      (combine (seq (List.length before) (List.length rest)) rest)
  = App.stitch rest.
Proof.
  induction rest as [|p rest IH]; intros before E; [reflexivity|].
  cbn [List.length seq combine map App.stitch fst snd]. f_equal.
  - rewrite E, length_app.
    destruct rest as [|q rest']; cbn [List.length];
      match goal with
      | |- context [(?a =? ?b)%nat] => destruct (Nat.eqb_spec a b)
      end; try reflexivity; try (exfalso; lia).
    rewrite app_nth2 by lia.
    replace (List.length before + 1 - List.length before)%nat with 1%nat
      by lia.
    reflexivity.
  - specialize (IH (before ++ [p])).
    rewrite length_app in IH. cbn [List.length] in IH.
    replace (List.length before + 1)%nat with (S (List.length before)) in IH
      by lia.
    apply IH. rewrite E, <- app_assoc. reflexivity.
Qed.

(** The indexed [map] of the source computes [stitch]. *)
Lemma periodsWithEndAges_stitch periods :
  App.periodsWithEndAges periods = App.stitch periods.
Proof.
  unfold App.periodsWithEndAges, App.mapWithIndex.
  exact (periodsWithEndAges_from periods periods [] eq_refl).
Qed.

Lemma stitch_startAge periods :
  map Period.startAge (App.stitch periods) = map Period.startAge periods.
Proof.
  induction periods as [|p rest IH]; [reflexivity|].
  cbn [App.stitch map]. now rewrite IH.
Qed.

Lemma stitch_length periods :
  List.length (App.stitch periods) = List.length periods.
Proof.
  rewrite <- (length_map Period.startAge), stitch_startAge.
  apply length_map.
Qed.

Lemma activeRegime_skip l1 l2 age :
  Forall (fun q => ~ contains q age) l1 ->
  Spec.activeRegime (l1 ++ l2) age = Spec.activeRegime l2 age.
Proof.
  induction 1 as [|a l1 Ha _ IH]; [reflexivity|].
  cbn [app Spec.activeRegime].
  apply containsb_false in Ha. now rewrite Ha.
Qed.

Lemma activeRegime_only x l age :
  contains x age -> Forall (fun q => ~ contains q age) l ->
  Spec.activeRegime (x :: l) age = Some x.
Proof.
  intros Hx Hl. cbn [Spec.activeRegime].
  apply containsb_true in Hx. rewrite Hx.
  apply activeRegime_None in Hl. now rewrite Hl.
Qed.

(** X13. The stitched timeline: when the form's periods are listed with
    strictly ascending start ages, every age from a period's start up to
    the next period's start (up to 100 for the last period) has that
    period, with that end age, as its active regime. *)
Theorem stitched_periods_partition_the_timeline before p after age :
  StronglySorted startLt (before ++ p :: after) ->
  Period.startAge p <= age
  < match after with [] => 100 | next :: _ => Period.startAge next end ->
  getPeriodForAge
    (Array_sort byStartAge (App.periodsWithEndAges (before ++ p :: after)))
    age
  = Some (App.withEndAge p
            match after with [] => 100 | next :: _ => Period.startAge next end).
Proof.
  rewrite getPeriodForAge_sorted, periodsWithEndAges_stitch.
  induction before as [|b before IH]; intros Hs Hage.
  - cbn [app App.stitch]. apply activeRegime_only.
    + unfold contains. cbn [Period.startAge Period.endAge App.withEndAge].
      exact Hage.
    + inversion Hs as [|? ? Hs' Hall]; subst.
      rewrite Forall_forall. intros x Hx.
      assert (In (Period.startAge x) (map Period.startAge after)) as Hx'
        by (rewrite <- stitch_startAge; now apply in_map).
      apply in_map_iff in Hx'. destruct Hx' as (y & Ey & Hy).
      unfold contains. rewrite <- Ey.
      destruct after as [|next after']; [destruct Hy|].
      inversion Hs' as [|? ? _ Hall']; subst.
      rewrite Forall_forall in Hall'. unfold startLt in Hall'.
      destruct Hy as [<-|Hy]; [lra|].
      specialize (Hall' y Hy). lra.
  - inversion Hs as [|? ? Hs' Hall]; subst.
    cbn [app App.stitch].
    change (App.withEndAge b ?e :: ?l) with ([App.withEndAge b e] ++ l).
    rewrite activeRegime_skip; [now apply IH|].
    constructor; [|constructor].
    unfold contains. cbn [Period.startAge Period.endAge App.withEndAge].
    rewrite Forall_forall in Hall. unfold startLt in Hall.
    destruct before as [|b' before']; cbn [app].
    + lra.
    + assert (Period.startAge b' < Period.startAge p) as H.
      { inversion Hs' as [|? ? _ Hall']; subst.
        rewrite Forall_forall in Hall'. apply Hall'.
        apply in_or_app. right. now left. }
      lra.
Qed.

Lemma stitched_periods_partition_the_timeline_witness :
  getPeriodForAge
    (Array_sort byStartAge (App.periodsWithEndAges App.initialPeriods)) 40
  = Some (App.withEndAge (Period.mk 35 65 10000 0 None) 65).
Proof.
  apply (stitched_periods_partition_the_timeline
           [] (Period.mk 35 65 10000 0 None) [Period.mk 65 100 0 3000 None] 40).
  - repeat constructor. unfold startLt. cbn. lra.
  - cbn. lra.
Defined.

Lemma stitch_middle before p q after :
  In (App.withEndAge p (Period.startAge q))
     (App.stitch (before ++ p :: q :: after)).
Proof.
  induction before as [|b before IH].
  - cbn [app App.stitch]. now left.
  - cbn [app App.stitch]. right. exact IH.
Qed.

(** X14. A period of the form that does not start before the period
    listed after it is deactivated: its stitched version, ending where the
    next period starts, is passed to the engine but is the active regime
    of no age. *)
Theorem misordered_period_is_never_active before p q after :
  Period.startAge q <= Period.startAge p ->
  In (App.withEndAge p (Period.startAge q))
     (App.periodsWithEndAges (before ++ p :: q :: after))
  /\ forall age,
       getPeriodForAge
         (Array_sort byStartAge
            (App.periodsWithEndAges (before ++ p :: q :: after))) age
       <> Some (App.withEndAge p (Period.startAge q)).
Proof.
  intros Hle. split.
  - rewrite periodsWithEndAges_stitch. apply stitch_middle.
  - intros age H. apply getPeriodForAge_Some in H. destruct H as [_ Hc].
    unfold contains in Hc.
    cbn [App.withEndAge Period.startAge Period.endAge] in Hc. lra.
Qed.

Lemma misordered_period_is_never_active_witness :
  In (App.withEndAge (Period.mk 65 100 0 3000 None) 35)
     (App.periodsWithEndAges
        [Period.mk 65 100 0 3000 None; Period.mk 35 65 10000 0 None])
  /\ forall age,
       getPeriodForAge
         (Array_sort byStartAge
            (App.periodsWithEndAges
               [Period.mk 65 100 0 3000 None; Period.mk 35 65 10000 0 None]))
         age
       <> Some (App.withEndAge (Period.mk 65 100 0 3000 None) 35).
Proof.
  apply (misordered_period_is_never_active
           [] (Period.mk 65 100 0 3000 None) (Period.mk 35 65 10000 0 None) []).
  cbn. lra.
Defined.

(** ** The form: adding and removing periods *)

Lemma remove_at_from index : forall (rest : list Period.t) offset,
  map snd (filter (fun entry => negb (fst entry =? index)%nat)
                  (combine (seq offset (List.length rest)) rest))
  = if (index <? offset)%nat then rest
    else firstn (index - offset) rest ++ skipn (S (index - offset)) rest.
Proof.
  induction rest as [|p rest IH]; intros offset.
  - cbn [List.length seq combine filter map].
    destruct (index <? offset)%nat; [reflexivity|].
    now rewrite firstn_nil, skipn_nil.
  - cbn [List.length seq combine filter fst snd].
    destruct (Nat.eqb_spec offset index) as [->|Hne];
      cbn [negb map snd]; rewrite IH.
    + rewrite Nat.ltb_irrefl.
      replace (index <? S index)%nat with true
        by (symmetry; apply Nat.ltb_lt; lia).
      rewrite Nat.sub_diag. reflexivity.
    + destruct (Nat.ltb_spec index offset) as [Hlt|Hge].
      * replace (index <? S offset)%nat with true
          by (symmetry; apply Nat.ltb_lt; lia).
        reflexivity.
      * replace (index <? S offset)%nat with false
          by (symmetry; apply Nat.ltb_ge; lia).
        replace (index - offset)%nat with (S (index - S offset)) by lia.
        reflexivity.
Qed.

(** X15. [removePeriod] deletes exactly the period at the given index and
    keeps the others in order; it changes nothing when that would empty
    the list or when the index is out of range, so it never produces an
    empty list from a non-empty one. *)
Theorem removePeriod_removes_one_and_keeps_one periods index :
  (forall before p after,
     periods = before ++ p :: after -> List.length before = index ->
     before ++ after <> [] ->
     App.removePeriod periods index = before ++ after)
  /\ ((List.length periods <= 1)%nat -> App.removePeriod periods index = periods)
  /\ ((List.length periods <= index)%nat ->
      App.removePeriod periods index = periods)
  /\ (periods <> [] -> App.removePeriod periods index <> []).
Proof.
  assert (forall before p after,
    periods = before ++ p :: after -> List.length before = index ->
    before ++ after <> [] ->
    App.removePeriod periods index = before ++ after) as Hin.
  { intros before p after E Hlen Hne. unfold App.removePeriod.
    replace (1 <? List.length periods)%nat with true.
    - rewrite remove_at_from. cbn [Nat.ltb Nat.leb].
      rewrite Nat.sub_0_r, E, <- Hlen.
      rewrite firstn_app, Nat.sub_diag, firstn_all, firstn_O, app_nil_r.
      replace (S (List.length before)) with (List.length (before ++ [p]))
        by (rewrite length_app; cbn; lia).
      change (before ++ p :: after) with (before ++ [p] ++ after).
      rewrite app_assoc, skipn_app, skipn_all, Nat.sub_diag. reflexivity.
    - symmetry. apply Nat.ltb_lt. rewrite E, length_app. cbn [List.length].
      destruct before, after; cbn [List.length app] in *;
        try lia; congruence. }
  assert ((List.length periods <= 1)%nat ->
          App.removePeriod periods index = periods) as Hsmall.
  { intros Hlen. unfold App.removePeriod.
    replace (1 <? List.length periods)%nat with false
      by (symmetry; apply Nat.ltb_ge; lia).
    reflexivity. }
  assert ((List.length periods <= index)%nat ->
          App.removePeriod periods index = periods) as Hout.
  { intros Hlen. unfold App.removePeriod.
    destruct (1 <? List.length periods)%nat; [|reflexivity].
    rewrite remove_at_from. cbn [Nat.ltb Nat.leb]. rewrite Nat.sub_0_r.
    rewrite firstn_all2 by lia. rewrite skipn_all2 by lia.
    apply app_nil_r. }
  repeat split; try assumption.
  intros Hne.
  destruct (Nat.le_gt_cases (List.length periods) index) as [Hge|Hlt];
    [now rewrite Hout|].
  destruct (Nat.le_gt_cases (List.length periods) 1) as [H1|H2];
    [now rewrite Hsmall|].
  destruct (nth_error_split periods index) with (a := nth index periods
    (Period.mk 0 0 0 0 None)) as (before & after & E & Hlen).
  { apply nth_error_nth'. exact Hlt. }
  assert (before ++ after <> []) as Hrest.
  { intros Hnil. apply (f_equal (@List.length _)) in E.
    rewrite length_app in E. cbn [List.length] in E.
    apply (f_equal (@List.length _)) in Hnil.
    rewrite length_app in Hnil. cbn [List.length] in Hnil. lia. }
  rewrite (Hin before _ after E Hlen Hrest). exact Hrest.
Qed.

Lemma addPeriod_last before lastPeriod :
  App.addPeriod (before ++ [lastPeriod])
  = Return ((before ++ [lastPeriod])
            ++ [Period.mk (Period.startAge lastPeriod + 10) 100 0 0 None]).
Proof.
  unfold App.addPeriod. rewrite length_app. cbn [List.length].
  replace (List.length before + 1 - 1)%nat with (List.length before) by lia.
  rewrite nth_error_app2, Nat.sub_diag by lia. reflexivity.
Qed.

Lemma sorted_snoc l x :
  StronglySorted startLt l -> Forall (fun a => startLt a x) l ->
  StronglySorted startLt (l ++ [x]).
Proof.
  induction 1 as [|a l Hs IH Ha]; intros Hx; cbn [app].
  - repeat constructor.
  - inversion Hx as [|? ? Hax Hx']; subst.
    constructor; [now apply IH|].
    apply Forall_app. split; [exact Ha | now repeat constructor].
Qed.

Lemma sorted_last_greatest before x :
  StronglySorted startLt (before ++ [x]) ->
  Forall (fun a => Period.startAge a <= Period.startAge x) (before ++ [x]).
Proof.
  induction before as [|b before IH]; cbn [app]; intros Hs.
  - constructor; [lra | constructor].
  - inversion Hs as [|? ? Hs' Hall]; subst.
    constructor; [|now apply IH].
    rewrite Forall_forall in Hall. unfold startLt in Hall.
    specialize (Hall x ltac:(apply in_or_app; right; now left)). lra.
Qed.


Lemma sorted_remove before p after :
  StronglySorted startLt (before ++ p :: after) ->
  StronglySorted startLt (before ++ after).
Proof.
  induction before as [|b before IH]; cbn [app]; intros Hs.
  - now inversion Hs.
  - inversion Hs as [|? ? Hs' Hall]; subst.
    constructor; [now apply IH|].
    rewrite Forall_forall in *. intros x Hx. apply Hall.
    apply in_app_or in Hx. apply in_or_app.
    destruct Hx as [Hx|Hx]; [now left | right; now right].
Qed.

Lemma removePeriod_cases periods index :
  App.removePeriod periods index = periods
  \/ exists before p after,
       periods = before ++ p :: after
       /\ before ++ after <> []
       /\ App.removePeriod periods index = before ++ after.
Proof.
  unfold App.removePeriod.
  destruct (Nat.ltb_spec 1 (List.length periods)) as [Hlong|Hshort];
    [|now left].
  destruct (Nat.le_gt_cases (List.length periods) index) as [Hout|Hin].
  - left. rewrite remove_at_from. cbn [Nat.ltb Nat.leb].
    rewrite Nat.sub_0_r, firstn_all2, skipn_all2 by lia. apply app_nil_r.
  - right.
    destruct (nth_error periods index) as [p|] eqn:En;
      [|apply nth_error_None in En; lia].
    destruct (nth_error_split periods index En)
      as (before & after & E & Hlen).
    subst periods. exists before, p, after.
    assert (before ++ after <> []) as Hne.
    { intros Hnil. rewrite length_app in Hlong. cbn [List.length] in Hlong.
      apply (f_equal (@List.length _)) in Hnil.
      rewrite length_app in Hnil. cbn [List.length] in Hnil. lia. }
    split; [reflexivity|]. split; [exact Hne|].
    rewrite remove_at_from. cbn [Nat.ltb Nat.leb].
    rewrite Nat.sub_0_r, <- Hlen.
    rewrite firstn_app, Nat.sub_diag, firstn_all, firstn_O, app_nil_r.
    replace (S (List.length before)) with (List.length (before ++ [p]))
      by (rewrite length_app; cbn; lia).
    change (before ++ p :: after) with (before ++ [p] ++ after).
    rewrite app_assoc, skipn_app, skipn_all, Nat.sub_diag. reflexivity.
Qed.

(** X17. Whatever sequence of add and remove buttons is pressed from the
    initial two periods, the list of periods stays non-empty with strictly
    ascending start ages, and the projection shown for it returns
    snapshots: the engine's error is never raised. *)
Theorem buttons_keep_the_projection_defined {rnd : Rounding} periods :
  reachableByButtons periods ->
  periods <> []
  /\ StronglySorted startLt periods
  /\ forall st, App.periods st = periods ->
                exists snapshots, App.results st = Return snapshots.
Proof.
  intros Hreach.
  assert (periods <> [] /\ StronglySorted startLt periods) as [Hne Hs].
  { induction Hreach as [|periods periods' _ [IHne IHs] Hadd
                          |periods index _ [IHne IHs]].
    - split; [discriminate|].
      unfold App.initialPeriods. repeat constructor.
      unfold startLt. cbn [Period.startAge]. lra.
    - destruct (exists_last IHne) as (before & lastPeriod & ->).
      rewrite addPeriod_last in Hadd. injection Hadd as <-.
      split; [now destruct before|].
      apply sorted_snoc; [exact IHs|].
      eapply Forall_impl; [|apply (sorted_last_greatest _ _ IHs)].
      intros a Ha. unfold startLt. cbn [Period.startAge]. lra.
    - destruct (removePeriod_cases periods index)
        as [->|(before & p & after & -> & Hrest & ->)]; [now split|].
      split; [exact Hrest | now apply sorted_remove in IHs]. }
  split; [exact Hne|]. split; [exact Hs|].
  intros st <-. eexists. unfold App.results.
  apply calculateGrowth_Return. cbn [App.inputs CalculationInputs.periods].
  intros E. apply (f_equal (@List.length _)) in E.
  rewrite periodsWithEndAges_stitch, stitch_length in E.
  destruct (App.periods st); [congruence | discriminate].
Qed.

Lemma buttons_keep_the_projection_defined_witness :
  threePeriods <> []
  /\ StronglySorted startLt threePeriods
  /\ forall st, App.periods st = threePeriods ->
                exists snapshots,
                  App.results (rnd := unrounded) st = Return snapshots.
Proof.
  apply buttons_keep_the_projection_defined.
  apply (reachable_add App.initialPeriods).
  - apply reachable_initial.
  - reflexivity.
Defined.

(** ** The form: period summaries *)

Lemma minStartAge_startAges : forall l l',
  map Period.startAge l = map Period.startAge l' ->
  Spec.minStartAge l = Spec.minStartAge l'.
Proof.
  induction l as [|a l IH]; intros [|a' l'] E; try discriminate; [reflexivity|].
  cbn [map] in E. injection E as Ea El.
  destruct l as [|b l], l' as [|b' l']; try discriminate.
  - cbn. exact Ea.
  - rewrite !minStartAge_cons by discriminate.
    rewrite Ea, (IH (b' :: l')) by exact El. reflexivity.
Qed.

Section FindByAge.
Variables (h : nat -> YearlyBalance.t) (ageOf : nat -> R) (target : R).
Hypothesis ages : forall k, YearlyBalance.age (h k) = ageOf k.

Lemma find_age_hit n : forall a k,
  (a <= k < a + n)%nat -> target = ageOf k ->
  (forall j, (a <= j < k)%nat -> target <> ageOf j) ->
  find (fun r => if Req_dec_T (YearlyBalance.age r) target then true else false)
       (map h (seq a n))
  = Some (h k).
Proof.
  induction n as [|n IH]; intros a k Hk E Hfirst; [lia|].
  cbn [seq map find]. rewrite ages.
  destruct (Req_dec_T (ageOf a) target) as [Ea|Ea].
  - destruct (Nat.eq_dec a k) as [->|Hak]; [reflexivity|].
    exfalso. apply (Hfirst a); [lia | now symmetry].
  - apply IH; [|exact E|].
    + assert (a <> k) by (intros ->; apply Ea; now symmetry). lia.
    + intros j Hj. apply Hfirst. lia.
Qed.

Lemma find_age_miss n : forall a,
  (forall k, (a <= k < a + n)%nat -> target <> ageOf k) ->
  find (fun r => if Req_dec_T (YearlyBalance.age r) target then true else false)
       (map h (seq a n))
  = None.
Proof.
  induction n as [|n IH]; intros a H; [reflexivity|].
  cbn [seq map find]. rewrite ages.
  destruct (Req_dec_T (ageOf a) target) as [Ea|Ea].
  - exfalso. apply (H a); [lia | now symmetry].
  - apply IH. intros k Hk. apply H. lia.
Qed.
End FindByAge.

(** X18. Period summaries.  With [years] whole years in the number of
    months the engine computes for the form's inputs, the projection has
    [years + 1] snapshots, of ages [ageOfYear start k] (the least start
    age for [k = 0], the rounded sum of the least start age and [k] after
    that), and a period's [startResult] is the first snapshot whose age
    equals the period's start age: the snapshot of year [k] when the
    start age is the age of year [k] and of no earlier year; for a start
    age that is the age of no year, [find] returns nothing. *)
Theorem period_summary_is_first_snapshot_of_equal_age {rnd : Rounding}
    st years :
  App.periods st <> [] ->
  INR (12 * years) <= months (App.inputs st) < INR (12 * years) + 12 ->
  exists snapshots,
    App.results st = Return snapshots
    /\ map YearlyBalance.age snapshots
       = map (ageOfYear (Spec.minStartAge (App.periods st)))
             (seq 0 (S years))
    /\ forall period,
         (forall k, (k <= years)%nat ->
            Period.startAge period
            = ageOfYear (Spec.minStartAge (App.periods st)) k ->
            (forall j, (j < k)%nat ->
               Period.startAge period
               <> ageOfYear (Spec.minStartAge (App.periods st)) j) ->
            App.startResult snapshots period = nth_error snapshots k)
         /\ ((forall k, (k <= years)%nat ->
                Period.startAge period
                <> ageOfYear (Spec.minStartAge (App.periods st)) k) ->
             App.startResult snapshots period = None).
Proof.
  intros Hne Hspan. unfold App.results.
  set (inputs := App.inputs st) in *.
  assert (Spec.minStartAge (CalculationInputs.periods inputs)
          = Spec.minStartAge (App.periods st)) as Hmin.
  { apply minStartAge_startAges.
    cbn [inputs App.inputs CalculationInputs.periods].
    rewrite periodsWithEndAges_stitch. apply stitch_startAge. }
  assert (CalculationInputs.periods inputs <> []) as Hne'.
  { cbn [inputs App.inputs CalculationInputs.periods]. intros E.
    apply (f_equal (@List.length _)) in E.
    rewrite periodsWithEndAges_stitch, stitch_length in E.
    destruct (App.periods st); [congruence | discriminate]. }
  assert (monthCount inputs / 12 = years)%nat as Hyears
    by now apply whole_years.
  eexists. split; [now apply calculateGrowth_by_year|].
  rewrite Hyears.
  assert (forall k, YearlyBalance.age (snapshotOfYear inputs k)
                    = ageOfYear (Spec.minStartAge (App.periods st)) k)
    as Hages.
  { intros k. rewrite snapshotOfYear_age. unfold Spec.start.
    now rewrite Hmin. }
  split; [rewrite map_map; now apply map_ext|].
  intros period. unfold App.startResult. split.
  - intros k Hk E Hfirst.
    rewrite (find_age_hit _ _ _ Hages (S years) 0 k);
      [|lia|exact E|intros j Hj; apply Hfirst; lia].
    rewrite nth_error_map, nth_error_seq.
    replace (k <? S years)%nat with true
      by (symmetry; apply Nat.ltb_lt; lia).
    reflexivity.
  - intros Hnone. apply (find_age_miss _ _ _ Hages).
    intros k Hk. apply Hnone. lia.
Qed.

Lemma period_summary_is_first_snapshot_of_equal_age_witness :
  exists snapshots,
    App.results (rnd := unrounded) defaultState = Return snapshots
    /\ map YearlyBalance.age snapshots
       = map (ageOfYear (rnd := unrounded)
                (Spec.minStartAge App.initialPeriods))
             (seq 0 66)
    /\ forall period,
         (forall k, (k <= 65)%nat ->
            Period.startAge period
            = ageOfYear (rnd := unrounded)
                (Spec.minStartAge App.initialPeriods) k ->
            (forall j, (j < k)%nat ->
               Period.startAge period
               <> ageOfYear (rnd := unrounded)
                    (Spec.minStartAge App.initialPeriods) j) ->
            App.startResult snapshots period = nth_error snapshots k)
         /\ ((forall k, (k <= 65)%nat ->
                Period.startAge period
                <> ageOfYear (rnd := unrounded)
                     (Spec.minStartAge App.initialPeriods) k) ->
             App.startResult snapshots period = None).
Proof.
  apply (period_summary_is_first_snapshot_of_equal_age (rnd := unrounded)
           defaultState 65).
  - discriminate.
  - unfold months, totalYears, endAge. cbn [fl unrounded].
    rewrite startAge_min. unfold Spec.start.
    cbn [defaultState App.inputs App.periods App.initialPeriods
         CalculationInputs.periods CalculationInputs.endAge nullish].
    rewrite periodsWithEndAges_stitch. unfold App.initialPeriods.
    cbn [App.stitch App.withEndAge Spec.minStartAge Period.startAge].
    rewrite INR_IZR_INZ. change (Z.of_nat (12 * 65)) with 780%Z.
    unfold Rmin. destruct (Rle_dec 35 65); lra.
Defined.

(** ** The engine extends the plain engine *)

Lemma plain_forLoop_continue {rnd : Rounding} inputs month st :
  INR month <= Plain.months inputs ->
  Plain.forLoop inputs month st
  = Plain.forLoop inputs (S month) (Plain.loopBody inputs month st).
Proof.
  intros H. rewrite Plain.forLoop_equation_1.
  destruct (Rle_dec (INR month) (Plain.months inputs));
    [reflexivity | contradiction].
Qed.

Lemma plain_forLoop_exit {rnd : Rounding} inputs month st :
  ~ INR month <= Plain.months inputs -> Plain.forLoop inputs month st = st.
Proof.
  intros H. rewrite Plain.forLoop_equation_1.
  destruct (Rle_dec (INR month) (Plain.months inputs));
    [contradiction | reflexivity].
Qed.

Lemma sort_insert_withoutOverride a l :
  sort_insert byStartAge (withoutOverride a) (map withoutOverride l)
  = map withoutOverride (sort_insert Plain.byStartAge a l).
Proof.
  induction l as [|b l IH]; [reflexivity|].
  cbn [map sort_insert].
  change (byStartAge (withoutOverride a) (withoutOverride b))
    with (Plain.byStartAge a b).
  destruct (Rgtb (Plain.byStartAge a b) 0); cbn [map]; [|reflexivity].
  now rewrite IH.
Qed.

Lemma sortedPeriods_withDefaults i :
  sortedPeriods (withDefaults i) = map withoutOverride (Plain.sortedPeriods i).
Proof.
  unfold sortedPeriods, Plain.sortedPeriods, Array_sort.
  cbn [withDefaults CalculationInputs.periods].
  induction (Plain.CalculationInputs.periods i) as [|a l IH]; [reflexivity|].
  cbn [map fold_right]. now rewrite IH, sort_insert_withoutOverride.
Qed.

Lemma getPeriodForAge_withoutOverride l age :
  getPeriodForAge (map withoutOverride l) age
  = option_map withoutOverride (Plain.getPeriodForAge l age).
Proof.
  induction l as [|p l IH]; [reflexivity|].
  cbn [map getPeriodForAge Plain.getPeriodForAge].
  change (Period.startAge (withoutOverride p)) with (Plain.Period.startAge p).
  change (Period.endAge (withoutOverride p)) with (Plain.Period.endAge p).
  destruct (Rgeb age (Plain.Period.startAge p)
            && Rltb age (Plain.Period.endAge p)); [reflexivity | exact IH].
Qed.

Lemma startAge_withDefaults i : startAge (withDefaults i) = Plain.startAge i.
Proof.
  unfold startAge, Plain.startAge. rewrite sortedPeriods_withDefaults.
  destruct (Plain.sortedPeriods i); reflexivity.
Qed.

Lemma months_withDefaults {rnd : Rounding} i :
  months (withDefaults i) = Plain.months i.
Proof.
  unfold months, Plain.months, totalYears, Plain.totalYears.
  now rewrite startAge_withDefaults.
Qed.

Lemma monthlyInflationFactor_withDefaults i :
  monthlyInflationFactor (withDefaults i) = 1.
Proof.
  unfold monthlyInflationFactor, inflation, inflationRate.
  cbn [withDefaults CalculationInputs.inflationRate nullish].
  replace (1 + 0 / 100) with 1 by lra. apply Math_pow_base_1.
Qed.

Lemma initialState_withDefaults i :
  sameState (Plain.initialState i) (initialState (withDefaults i)).
Proof.
  unfold sameState, Plain.initialState, initialState.
  cbn [Plain.balance Plain.totalContributions Plain.yearlyBalances
       balance totalContributions inflationMultiplier yearlyBalances map].
  repeat split.
  rewrite sortedPeriods_withDefaults, startAge_withDefaults,
    getPeriodForAge_withoutOverride.
  unfold plainFields. cbn.
  destruct (Plain.getPeriodForAge _ _); reflexivity.
Qed.

Lemma loopBody_withDefaults {rnd : Rounding} i month plain st :
  sameState plain st ->
  sameState (Plain.loopBody i month plain) (loopBody (withDefaults i) month st).
Proof.
  intros (Hb & Hc & Hm & Hy).
  unfold Plain.loopBody, loopBody, monthFlows, currentAge, pushYear,
    applyIskTax.
  change (iskEnabled (withDefaults i)) with false. cbv iota.
  rewrite sortedPeriods_withDefaults, startAge_withDefaults,
    !getPeriodForAge_withoutOverride, monthlyInflationFactor_withDefaults.
  unfold Plain.monthlyRate.
  cbn [withDefaults CalculationInputs.annualReturn].
  rewrite Hm, <- Hb, <- Hc.
  destruct (Plain.getPeriodForAge (Plain.sortedPeriods i)
              (fl (Plain.startAge i + fl ((INR month - 1) / 12)))) as [p|];
    cbn [option_map withoutOverride Period.annualReturn nullish
         Period.monthlyContribution Period.monthlySpending];
    destruct (month mod 12 =? 0)%nat;
    unfold sameState;
    cbn [Plain.balance Plain.totalContributions Plain.yearlyBalances
         balance totalContributions inflationMultiplier yearlyBalances];
    rewrite ?map_app, <- ?Hy; cbn [map];
    repeat split; try lra;
    f_equal; unfold plainFields; cbn;
    do 2 f_equal; try lra;
    destruct (Plain.getPeriodForAge (Plain.sortedPeriods i)
                (fl (Plain.startAge i + INR month / 12))) as [q|];
    cbn [option_map withoutOverride Period.monthlySpending];
    f_equal; lra.
Qed.

Lemma forLoop_withDefaults {rnd : Rounding} i k : forall month plain st,
  (1 <= month)%nat ->
  (month + k = S (monthCount (withDefaults i)))%nat ->
  sameState plain st ->
  sameState (Plain.forLoop i month plain)
            (forLoop (withDefaults i) month st).
Proof.
  induction k as [|k IH]; intros month plain st Hpos Hk Hsame.
  - assert (~ INR month <= months (withDefaults i)) as Hexit
      by (rewrite loop_test_monthCount by assumption; lia).
    rewrite forLoop_exit by exact Hexit.
    rewrite months_withDefaults in Hexit.
    now rewrite plain_forLoop_exit.
  - assert (INR month <= months (withDefaults i)) as Hgo
      by (rewrite loop_test_monthCount by assumption; lia).
    rewrite forLoop_continue by exact Hgo.
    rewrite months_withDefaults in Hgo.
    rewrite plain_forLoop_continue by exact Hgo.
    apply IH; [lia | lia | now apply loopBody_withDefaults].
Qed.

(** X19. The engine extends the plain one: on inputs without return
    overrides, inflation rate and tax policy, [calculateGrowth] throws
    when the plain [calculateGrowth] throws and otherwise returns the same
    snapshots, field by field, with the two added fields beside them. *)
Theorem engine_agrees_with_plain_engine {rnd : Rounding} i :
  Plain.calculateGrowth i
  = match calculateGrowth (withDefaults i) with
    | Return snapshots => Return (map plainFields snapshots)
    | Throw message => Throw message
    end.
Proof.
  unfold Plain.calculateGrowth, calculateGrowth.
  rewrite sortedPeriods_withDefaults.
  destruct (Plain.sortedPeriods i) as [|first rest]; [reflexivity|].
  cbn [map]. f_equal.
  destruct (forLoop_withDefaults i (monthCount (withDefaults i)) 1
              (Plain.initialState i) (initialState (withDefaults i)))
    as (_ & _ & _ & H);
    [lia | lia | apply initialState_withDefaults | exact H].
Qed.

(** ** Comparing two projections *)

Lemma Forall2_map_seq {A B} (P : A -> B -> Prop) (f : nat -> A) (g : nat -> B)
    (l : list nat) :
  (forall k, P (f k) (g k)) -> Forall2 P (map f l) (map g l).
Proof. intros H. induction l; cbn [map]; constructor; auto. Qed.

Section MoreMoneyLessInflation.
Context {rnd : Rounding}.
Variables poorer richer : CalculationInputs.t.

Hypothesis same_periods :
  CalculationInputs.periods poorer = CalculationInputs.periods richer.
Hypothesis same_return :
  CalculationInputs.annualReturn poorer = CalculationInputs.annualReturn richer.
Hypothesis same_horizon : endAge poorer = endAge richer.
Hypothesis same_tax :
  CalculationInputs.iskTax poorer = CalculationInputs.iskTax richer.
Hypothesis initial_le :
  CalculationInputs.initialAmount poorer
  <= CalculationInputs.initialAmount richer.
Hypothesis inflation_le :
  -100 < inflationRate richer <= inflationRate poorer.
Hypothesis return_bound : -1200 <= CalculationInputs.annualReturn richer.
Hypothesis override_bound :
  Forall (fun p => forall r, Period.annualReturn p = Some r -> -1200 <= r)
         (CalculationInputs.periods richer).
Hypothesis spending_nonneg :
  Forall (fun p => 0 <= Period.monthlySpending p)
         (CalculationInputs.periods richer).
Hypothesis tax_bound :
  iskEnabled richer = true -> iskRate richer * 0.30 <= 100.

Lemma compare_start : Spec.start poorer = Spec.start richer.
Proof. unfold Spec.start. now rewrite same_periods. Qed.

Lemma compare_flows month s1 s2 :
  Spec.bal s1 <= Spec.bal s2 -> 0 < Spec.infl s2 <= Spec.infl s1 ->
  Spec.bal (Spec.flows poorer month s1) <= Spec.bal (Spec.flows richer month s2)
  /\ 0 < Spec.infl (Spec.flows richer month s2)
         <= Spec.infl (Spec.flows poorer month s1).
Proof.
  intros Hbal [Hpos Hinfl]. unfold Spec.flows.
  rewrite compare_start, same_periods, same_return.
  change (match CalculationInputs.inflationRate poorer with
          | Some i => i | None => 0 end) with (inflationRate poorer).
  change (match CalculationInputs.inflationRate richer with
          | Some i => i | None => 0 end) with (inflationRate richer).
  pose proof (Math_pow_pos (1 + inflationRate richer / 100) (1 / 12)) as Hf2.
  assert (Math_pow (1 + inflationRate richer / 100) (1 / 12)
          <= Math_pow (1 + inflationRate poorer / 100) (1 / 12)) as Hf
    by (apply Rle_Rpower_l; lra).
  set (f1 := Math_pow (1 + inflationRate poorer / 100) (1 / 12)) in *.
  set (f2 := Math_pow (1 + inflationRate richer / 100) (1 / 12)) in *.
  assert (0 < Spec.infl s2 * f2) as Hm2 by now apply Rmult_lt_0_compat.
  assert (Spec.infl s2 * f2 <= Spec.infl s1 * f1) as Hm
    by (apply Rmult_le_compat; lra).
  destruct (Spec.activeRegime _ _) as [r|] eqn:E; cbn [Spec.bal Spec.infl].
  - apply activeRegime_In in E.
    rewrite Forall_forall in override_bound, spending_nonneg.
    specialize (override_bound r E). specialize (spending_nonneg r E).
    assert (0 <= 1 + match Period.annualReturn r with
                     | Some o => o
                     | None => CalculationInputs.annualReturn richer
                     end / 100 / 12) as Hq.
    { destruct (Period.annualReturn r) as [o|];
        [specialize (override_bound o eq_refl)|]; lra. }
    set (q := 1 + _ / 100 / 12) in *.
    split; [|lra].
    assert (Spec.bal s1 * q <= Spec.bal s2 * q)
      by now apply Rmult_le_compat_r.
    assert (Period.monthlySpending r * (Spec.infl s2 * f2)
            <= Period.monthlySpending r * (Spec.infl s1 * f1))
      by now apply Rmult_le_compat_l.
    lra.
  - split; [|lra]. apply Rmult_le_compat_r; lra.
Qed.

Lemma compare_states m :
  Spec.bal (Spec.stateAt poorer m) <= Spec.bal (Spec.stateAt richer m)
  /\ 0 < Spec.infl (Spec.stateAt richer m) <= Spec.infl (Spec.stateAt poorer m).
Proof.
  induction m as [|m [IHb IHi]].
  - cbn. lra.
  - cbn [Spec.stateAt]. unfold Spec.step.
    destruct (compare_flows (S m) _ _ IHb IHi) as [Fb Fi].
    destruct (S m mod 12 =? 0)%nat; [|now split].
    unfold Spec.yearEndTax, Spec.taxEnabled, Spec.taxRateBasis.
    unfold iskEnabled, iskRate in tax_bound.
    rewrite same_tax.
    destruct (CalculationInputs.iskTax richer) as [t|]; [|now split].
    destruct (IskTax.enabled t); [|now split].
    cbn [Spec.bal Spec.infl]. split; [|exact Fi].
    specialize (tax_bound eq_refl).
    set (rate := IskTax.governmentBorrowingRate t) in *.
    set (b1 := Spec.bal (Spec.flows poorer (S m) (Spec.stateAt poorer m))) in *.
    set (b2 := Spec.bal (Spec.flows richer (S m) (Spec.stateAt richer m))) in *.
    nra.
Qed.

Lemma compare_monthCount : monthCount poorer = monthCount richer.
Proof.
  unfold monthCount, months, totalYears.
  now rewrite !startAge_min, compare_start, same_horizon.
Qed.
End MoreMoneyLessInflation.

(** X20. A lower initial amount and a higher inflation rate never help:
    of two projections over the same regimes, horizon, returns and tax
    policy, the one with no more initial money and no less inflation has,
    year by year, no more balance.  (Returns, overrides included, of at
    least -1200; no negative spending; an inflation rate above -100; a tax
    of at most the whole balance.) *)
Theorem less_money_or_more_inflation_never_helps {rnd : Rounding}
    poorer richer :
  CalculationInputs.periods richer <> [] ->
  CalculationInputs.periods poorer = CalculationInputs.periods richer ->
  CalculationInputs.annualReturn poorer
  = CalculationInputs.annualReturn richer ->
  endAge poorer = endAge richer ->
  CalculationInputs.iskTax poorer = CalculationInputs.iskTax richer ->
  CalculationInputs.initialAmount poorer
  <= CalculationInputs.initialAmount richer ->
  -100 < inflationRate richer <= inflationRate poorer ->
  -1200 <= CalculationInputs.annualReturn richer ->
  Forall (fun p => forall r, Period.annualReturn p = Some r -> -1200 <= r)
         (CalculationInputs.periods richer) ->
  Forall (fun p => 0 <= Period.monthlySpending p)
         (CalculationInputs.periods richer) ->
  (iskEnabled richer = true -> iskRate richer * 0.30 <= 100) ->
  exists snapshots1 snapshots2,
    calculateGrowth poorer = Return snapshots1
    /\ calculateGrowth richer = Return snapshots2
    /\ Forall2 (fun s1 s2 =>
                  YearlyBalance.age s1 = YearlyBalance.age s2
                  /\ YearlyBalance.balance s1 <= YearlyBalance.balance s2)
               snapshots1 snapshots2.
Proof.
  intros Hne Hl Hr He Ht Hi Hinfl Hret Hover Hspend Htax.
  do 2 eexists.
  split; [apply calculateGrowth_by_year; now rewrite Hl|].
  split; [now apply calculateGrowth_by_year|].
  rewrite (compare_monthCount poorer richer Hl He).
  apply Forall2_map_seq. intros k. split.
  - now rewrite !snapshotOfYear_age, (compare_start poorer richer Hl).
  - rewrite !snapshotOfYear_balance. now apply compare_states.
Qed.

Lemma less_money_or_more_inflation_never_helps_witness :
  exists snapshots1 snapshots2,
    calculateGrowth (rnd := unrounded)
      (CalculationInputs.mk 1000 [saver; spender] 7 (Some 60) (Some 3) None)
    = Return snapshots1
    /\ calculateGrowth (rnd := unrounded)
         (CalculationInputs.mk 2000 [saver; spender] 7 (Some 60) (Some 2) None)
       = Return snapshots2
    /\ Forall2 (fun s1 s2 =>
                  YearlyBalance.age s1 = YearlyBalance.age s2
                  /\ YearlyBalance.balance s1 <= YearlyBalance.balance s2)
               snapshots1 snapshots2.
Proof.
  apply less_money_or_more_inflation_never_helps.
  - discriminate.
  - reflexivity.
  - reflexivity.
  - reflexivity.
  - reflexivity.
  - cbn. lra.
  - unfold inflationRate. cbn. lra.
  - cbn. lra.
  - for_each_regime ltac:(intros r [= <-]; lra).
  - for_each_regime lra.
  - discriminate.
Defined.

Section TaxCosts.
Context {rnd : Rounding}.
Variables (initial ret rate : R) (l : list Period.t).
Variables (horizon infl : option R).

Hypothesis initial_nonneg : 0 <= initial.
Hypothesis return_bound : -1200 <= ret.
Hypothesis override_bound :
  Forall (fun p => forall r, Period.annualReturn p = Some r -> -1200 <= r) l.
Hypothesis contribution_nonneg :
  Forall (fun p => 0 <= Period.monthlyContribution p) l.
Hypothesis no_spending : Forall (fun p => Period.monthlySpending p = 0) l.
Hypothesis rate_bound : 0 <= rate /\ rate * 0.30 <= 100.

Lemma taxed_flows month s1 s2 :
  0 <= Spec.bal s1 <= Spec.bal s2 ->
  0 <= Spec.bal (Spec.flows
                   (CalculationInputs.mk initial l ret horizon infl
                      (Some (IskTax.mk true rate))) month s1)
    <= Spec.bal (Spec.flows
                   (CalculationInputs.mk initial l ret horizon infl None)
                   month s2)
  /\ Spec.tax (Spec.flows
                 (CalculationInputs.mk initial l ret horizon infl
                    (Some (IskTax.mk true rate))) month s1)
     = Spec.tax s1.
Proof.
  intros Hbal. unfold Spec.flows.
  change (Spec.start (CalculationInputs.mk initial l ret horizon infl None))
    with (Spec.start (CalculationInputs.mk initial l ret horizon infl
                        (Some (IskTax.mk true rate)))).
  cbn [CalculationInputs.periods CalculationInputs.annualReturn].
  destruct (Spec.activeRegime l _) as [r|] eqn:E; cbn [Spec.bal Spec.tax].
  - apply activeRegime_In in E.
    rewrite Forall_forall in override_bound, contribution_nonneg, no_spending.
    specialize (override_bound r E). specialize (contribution_nonneg r E).
    rewrite (no_spending r E).
    assert (0 <= 1 + match Period.annualReturn r with
                     | Some o => o | None => ret end / 100 / 12) as Hq.
    { destruct (Period.annualReturn r) as [o|];
        [specialize (override_bound o eq_refl)|]; lra. }
    set (q := 1 + _ / 100 / 12) in *.
    assert (0 <= Spec.bal s1 * q) by (apply Rmult_le_pos; lra).
    assert (Spec.bal s1 * q <= Spec.bal s2 * q)
      by (apply Rmult_le_compat_r; lra).
    split; [lra | reflexivity].
  - assert (0 <= 1 + ret / 100 / 12) as Hq by lra.
    split; [|reflexivity]. split.
    + apply Rmult_le_pos; lra.
    + apply Rmult_le_compat_r; lra.
Qed.

Lemma taxed_states m :
  0 <= Spec.bal (Spec.stateAt
                   (CalculationInputs.mk initial l ret horizon infl
                      (Some (IskTax.mk true rate))) m)
    <= Spec.bal (Spec.stateAt
                   (CalculationInputs.mk initial l ret horizon infl None) m)
  /\ 0 <= Spec.tax (Spec.stateAt
                      (CalculationInputs.mk initial l ret horizon infl
                         (Some (IskTax.mk true rate))) m).
Proof.
  induction m as [|m [IHb IHt]].
  - cbn. lra.
  - cbn [Spec.stateAt]. unfold Spec.step.
    destruct (taxed_flows (S m) _ _ IHb) as [Fb Ft].
    destruct (S m mod 12 =? 0)%nat; [|rewrite Ft; now split].
    unfold Spec.yearEndTax, Spec.taxEnabled, Spec.taxRateBasis.
    cbn [CalculationInputs.iskTax IskTax.enabled IskTax.governmentBorrowingRate
         Spec.bal Spec.tax].
    rewrite Ft.
    set (b1 := Spec.bal (Spec.flows _ (S m) _)) in *.
    set (b2 := Spec.bal (Spec.flows _ (S m) _)) in *.
    destruct rate_bound as [R0 R1]. split; [|nra]. split; nra.
Qed.

Lemma taxed_projections :
  l <> [] ->
  exists taxed untaxed,
    calculateGrowth (CalculationInputs.mk initial l ret horizon infl
                       (Some (IskTax.mk true rate))) = Return taxed
    /\ calculateGrowth (CalculationInputs.mk initial l ret horizon infl None)
       = Return untaxed
    /\ Forall2 (fun s1 s2 =>
                  YearlyBalance.age s1 = YearlyBalance.age s2
                  /\ 0 <= YearlyBalance.balance s1 <= YearlyBalance.balance s2
                  /\ 0 <= YearlyBalance.taxPaid s1)
               taxed untaxed.
Proof.
  intros Hne. do 2 eexists.
  split; [now apply calculateGrowth_by_year|].
  split; [now apply calculateGrowth_by_year|].
  change (monthCount (CalculationInputs.mk initial l ret horizon infl None))
    with (monthCount (CalculationInputs.mk initial l ret horizon infl
                        (Some (IskTax.mk true rate)))).
  apply Forall2_map_seq. intros k.
  split; [now rewrite !snapshotOfYear_age|].
  rewrite !snapshotOfYear_balance, snapshotOfYear_taxPaid.
  apply taxed_states.
Qed.
End TaxCosts.

(** X21. The tax only costs: for a saver (an initial amount and
    contributions that are not negative, no spending, returns of at least
    -1200) taxed at a borrowing rate between 0 and 100 / 0.30, every
    snapshot has a balance that is not negative and not above the balance
    of the same projection without tax, and a cumulative tax that is not
    negative. *)
Theorem tax_never_increases_a_savers_balance {rnd : Rounding}
    initial ret rate l horizon infl :
  l <> [] ->
  0 <= initial ->
  -1200 <= ret ->
  Forall (fun p => forall r, Period.annualReturn p = Some r -> -1200 <= r) l ->
  Forall (fun p => 0 <= Period.monthlyContribution p) l ->
  Forall (fun p => Period.monthlySpending p = 0) l ->
  0 <= rate /\ rate * 0.30 <= 100 ->
  exists taxed untaxed,
    calculateGrowth (CalculationInputs.mk initial l ret horizon infl
                       (Some (IskTax.mk true rate))) = Return taxed
    /\ calculateGrowth (CalculationInputs.mk initial l ret horizon infl None)
       = Return untaxed
    /\ Forall2 (fun s1 s2 =>
                  YearlyBalance.age s1 = YearlyBalance.age s2
                  /\ 0 <= YearlyBalance.balance s1 <= YearlyBalance.balance s2
                  /\ 0 <= YearlyBalance.taxPaid s1)
               taxed untaxed.
Proof.
  intros Hne H1 H2 H3 H4 H5 H6. now apply taxed_projections.
Qed.

Lemma tax_never_increases_a_savers_balance_witness :
  exists taxed untaxed,
    calculateGrowth (rnd := unrounded)
      (CalculationInputs.mk 1000000 [saver] 7 (Some 40) None
         (Some (IskTax.mk true 2.5))) = Return taxed
    /\ calculateGrowth (rnd := unrounded)
         (CalculationInputs.mk 1000000 [saver] 7 (Some 40) None None)
       = Return untaxed
    /\ Forall2 (fun s1 s2 =>
                  YearlyBalance.age s1 = YearlyBalance.age s2
                  /\ 0 <= YearlyBalance.balance s1 <= YearlyBalance.balance s2
                  /\ 0 <= YearlyBalance.taxPaid s1)
               taxed untaxed.
Proof.
  apply tax_never_increases_a_savers_balance.
  - discriminate.
  - lra.
  - lra.
  - for_each_regime ltac:(intros r [=]).
  - for_each_regime lra.
  - for_each_regime reflexivity.
  - lra.
Defined.

(** ** Dropping a zero-length regime *)

Lemma In_middle {A} (x a : A) l1 l2 :
  In x (l1 ++ a :: l2) <-> x = a \/ In x (l1 ++ l2).
Proof.
  rewrite !in_app_iff. cbn [In]. intuition congruence.
Qed.

Lemma minStartAge_drop l1 p l2 :
  (exists q, In q (l1 ++ l2) /\ Period.startAge q <= Period.startAge p) ->
  Spec.minStartAge (l1 ++ p :: l2) = Spec.minStartAge (l1 ++ l2).
Proof.
  intros (q & Hq & Hqp).
  assert (l1 ++ l2 <> []) as Hne by (intros E; now rewrite E in Hq).
  assert (l1 ++ p :: l2 <> []) as Hne' by now destruct l1.
  destruct (minStartAge_In _ Hne) as (a & Ha & Ea).
  destruct (minStartAge_In _ Hne') as (b & Hb & Eb).
  apply Rle_antisym.
  - rewrite Ea. apply minStartAge_le. apply In_middle. now right.
  - rewrite Eb. apply In_middle in Hb. destruct Hb as [->|Hb].
    + pose proof (minStartAge_le _ q Hq). lra.
    + now apply minStartAge_le.
Qed.

(** X22. A regime with [startAge = endAge] can be removed from the list
    without changing the result, as long as another regime starts no
    later: it can only ever matter by being the earliest start. *)
Theorem zero_length_regime_can_be_dropped {rnd : Rounding}
    initial l1 p l2 ret horizon infl tax :
  Period.startAge p = Period.endAge p ->
  (exists q, In q (l1 ++ l2) /\ Period.startAge q <= Period.startAge p) ->
  calculateGrowth
    (CalculationInputs.mk initial (l1 ++ p :: l2) ret horizon infl tax)
  = calculateGrowth
      (CalculationInputs.mk initial (l1 ++ l2) ret horizon infl tax).
Proof.
  intros Hzero Hother. apply calculateGrowth_ext.
  - destruct Hother as (q & Hq & _). split; intros E.
    + now destruct l1.
    + now rewrite E in Hq.
  - now apply minStartAge_drop.
  - intros age. apply activeRegime_drop. unfold contains. lra.
Qed.

Lemma zero_length_regime_can_be_dropped_witness :
  calculateGrowth (rnd := unrounded) zeroLengthScenario
  = calculateGrowth (rnd := unrounded)
      (CalculationInputs.mk 10000 [idleRegime 50] 7 (Some 50) None None).
Proof.
  apply (zero_length_regime_can_be_dropped
           10000 [] zeroLengthRegime [idleRegime 50] 7 (Some 50) None None).
  - reflexivity.
  - exists (idleRegime 50). split; [now left | cbn; lra].
Defined.
